(** * PromptVariablesTester: a shallow embedding of [app3.py] and [best_of_n.py]

    The two applications share a variable-definition parser, a combination
    expander and a template renderer; [best_of_n.py] adds a resolver for
    cross-stage variables and a repeated-run loop.  Both end a run by
    appending a session to an XML log.

    Python [str] is modelled by [string] (code points below 256), a Python
    [dict] by an association list that keeps insertion order, an uncaught
    exception by [None].  What the programs obtain from the Python standard
    library or from the outside world (the JSON decoder, [str()] of decoded
    JSON objects, the file system, the model service, the XML reader) is a
    parameter of the development. *)

From Stdlib Require Import Strings.String Strings.Ascii.
From Stdlib Require Import Lists.List.
From Stdlib Require Import Bool Arith NArith Lia.
From Stdlib Require Import Sorting.Permutation.
Import ListNotations.

Set Warnings "-register-all".

Local Open Scope string_scope.
Local Open Scope list_scope.

(* ===================================================================== *)
(** * Python string primitives *)
(* ===================================================================== *)

Module Py.

(** [str.isspace] on a single code point below 256: TAB..CR, FS..US, the
    space, NEL and the no-break space.  The regular-expression class [\s]
    of a [str] pattern is the same set. *)
Definition isspace (c : ascii) : bool :=
  let n := N_of_ascii c in
  ((9 <=? n) && (n <=? 13) || (28 <=? n) && (n <=? 32) || (n =? 133) || (n =? 160))%N.

Fixpoint lstrip (s : string) : string :=
  match s with
  | EmptyString => EmptyString
  | String c s' => if isspace c then lstrip s' else s
  end.

Fixpoint rstrip (s : string) : string :=
  match s with
  | EmptyString => EmptyString
  | String c s' =>
      match rstrip s' with
      | EmptyString => if isspace c then EmptyString else String c EmptyString
      | r => String c r
      end
  end.

(** [s.strip()] *)
Definition strip (s : string) : string := rstrip (lstrip s).

(** [s.startswith(p)] *)
Fixpoint startswith (p s : string) : bool :=
  match p, s with
  | EmptyString, _ => true
  | String a p', String b s' => Ascii.eqb a b && startswith p' s'
  | String _ _, EmptyString => false
  end.

(** [s.endswith(p)] *)
Fixpoint endswith (p s : string) : bool :=
  String.eqb s p ||
  match s with
  | EmptyString => false
  | String _ s' => endswith p s'
  end.

(** [sub in s] *)
Fixpoint contains (sub s : string) : bool :=
  startswith sub s ||
  match s with
  | EmptyString => false
  | String _ s' => contains sub s'
  end.

Fixpoint drop (n : nat) (s : string) : string :=
  match n, s with
  | O, _ => s
  | S _, EmptyString => EmptyString
  | S k, String _ s' => drop k s'
  end.

Fixpoint removelast (s : string) : string :=
  match s with
  | EmptyString => EmptyString
  | String c EmptyString => EmptyString
  | String c s' => String c (removelast s')
  end.

(** [s[n:-1]] *)
Definition slice_to_last (n : nat) (s : string) : string :=
  drop n (removelast s).

Fixpoint take_while (p : ascii -> bool) (s : string) : string :=
  match s with
  | EmptyString => EmptyString
  | String c s' => if p c then String c (take_while p s') else EmptyString
  end.

Fixpoint drop_while (p : ascii -> bool) (s : string) : string :=
  match s with
  | EmptyString => EmptyString
  | String c s' => if p c then drop_while p s' else s
  end.

(** [s.split(sep)] for a one-character separator: every piece, empty ones
    included. *)
Fixpoint split_acc (sep : ascii) (cur : string) (s : string) : list string :=
  match s with
  | EmptyString => [cur]
  | String c s' =>
      if Ascii.eqb c sep then cur :: split_acc sep EmptyString s'
      else split_acc sep (cur ++ String c EmptyString) s'
  end.

Definition split (sep : ascii) (s : string) : list string :=
  split_acc sep EmptyString s.

(** [s.split(sep, 1)]: cut at the first separator only. *)
Definition split1 (sep : ascii) (s : string) : list string :=
  let head := take_while (fun c => negb (Ascii.eqb c sep)) s in
  match drop_while (fun c => negb (Ascii.eqb c sep)) s with
  | EmptyString => [s]
  | String _ rest => [head; rest]
  end.

(** [a, b = xs]: unpacking into two names raises [ValueError] unless the
    list has exactly two items. *)
Definition unpack2 (xs : list string) : option (string * string) :=
  match xs with
  | [a; b] => Some (a, b)
  | _ => None
  end.

(** [s.replace(old, new)]: non-overlapping occurrences, found from the left.
    [skip] counts the characters of an occurrence still to be passed over. *)
Fixpoint replace_from (old new : string) (skip : nat) (s : string) : string :=
  match s with
  | EmptyString => EmptyString
  | String c s' =>
      match skip with
      | S k => replace_from old new k s'
      | O =>
          if startswith old s
          then new ++ replace_from old new (String.length old - 1) s'
          else String c (replace_from old new 0 s')
      end
  end.

(** With an empty [old], Python inserts [new] before every character and at
    the end. *)
Fixpoint intersperse (new s : string) : string :=
  match s with
  | EmptyString => new
  | String c s' => new ++ String c (intersperse new s')
  end.

Definition replace (old new s : string) : string :=
  match old with
  | EmptyString => intersperse new s
  | String _ _ => replace_from old new 0 s
  end.

(** Decimal form of a natural number, as [str(i)] or an f-string gives it. *)
Definition digit (n : nat) : ascii := ascii_of_nat (48 + n).

Fixpoint str_nat_fuel (fuel n : nat) (acc : string) : string :=
  match fuel with
  | O => acc
  | S f =>
      let acc' := String (digit (n mod 10)) acc in
      if Nat.ltb n 10 then acc' else str_nat_fuel f (n / 10) acc'
  end.

Definition str_nat (n : nat) : string := str_nat_fuel (S n) n EmptyString.

(** The line feed. *)
Definition LF : string := String (ascii_of_nat 10) EmptyString.

(** [s.rsplit(sep, 1)]: cut at the last separator only.  [rcut] gives the
    two sides of the last separator, if there is one. *)
Fixpoint rcut (sep : ascii) (s : string) : option (string * string) :=
  match s with
  | EmptyString => None
  | String c s' =>
      match rcut sep s' with
      | Some (head, rest) => Some (String c head, rest)
      | None => if Ascii.eqb c sep then Some (EmptyString, s') else None
      end
  end.

Definition rsplit1 (sep : ascii) (s : string) : list string :=
  match rcut sep s with
  | Some (head, rest) => [head; rest]
  | None => [s]
  end.

End Py.

(* ===================================================================== *)
(** * Python dictionaries *)
(* ===================================================================== *)

(** A [dict] keeps its keys in insertion order; assigning to a key that is
    already present keeps the key's position. *)
Module Dict.

Section Ops.
Context {V : Type}.

Definition t := list (string * V).

Fixpoint get (k : string) (d : list (string * V)) : option V :=
  match d with
  | [] => None
  | (k', v) :: d' => if String.eqb k k' then Some v else get k d'
  end.

(** [d[k] = v] *)
Fixpoint set (k : string) (v : V) (d : list (string * V)) : list (string * V) :=
  match d with
  | [] => [(k, v)]
  | (k', v') :: d' =>
      if String.eqb k k' then (k', v) :: d' else (k', v') :: set k v d'
  end.

Definition keys (d : list (string * V)) : list string := map fst d.

End Ops.

Arguments t : clear implicits.

End Dict.

(* ===================================================================== *)
(** * What the host provides *)
(* ===================================================================== *)

(** Outcome of [json.loads(text)] as the parser uses it: [JSONDecodeError],
    another exception (a [RecursionError] on deep nesting, a [ValueError] on
    an integer literal past the digit limit), a value that is not a list, or
    a list with its items. *)
Inductive loads_result (item : Type) : Type :=
| DecodeError
| OtherError
| NotAList
| IsList (items : list item).

Arguments DecodeError {item}.
Arguments OtherError {item}.
Arguments NotAList {item}.
Arguments IsList {item} items.

(** Python values the programs pass around besides [str]: [obj] stands for
    what [json.loads] can put in a list other than a string (numbers,
    booleans, [None], nested lists, objects). *)
Class Host : Type := {
  obj : Type;
  (** [isinstance(o, dict)] *)
  obj_is_dict : obj -> bool;
  (** [str(o)] *)
  obj_str : obj -> string;
  (** [repr(s)] of a [str] *)
  str_repr : string -> string;
  (** [json.loads]; an item is a [str] or another object *)
  json_loads : string -> loads_result (string + obj)
}.

(** The file system as [expand_variables] reads it.  [None] is a raised
    exception. *)
Record FileSystem : Type := {
  (** [with open(path, 'r') as f: f.read()] *)
  read_text : string -> option string;
  (** [os.walk(top)]: each directory reached with the files in it; errors
      met while walking are ignored by [os.walk] itself *)
  os_walk : string -> list (string * list string);
  os_path_exists : string -> bool;
  os_path_isdir : string -> bool;
  os_path_isfile : string -> bool;
  (** [os.listdir(path)] *)
  os_listdir : string -> option (list string);
  os_path_join : string -> string -> string
}.

(* ===================================================================== *)
(** * Data model *)
(* ===================================================================== *)

Section Model.
Context {host : Host}.

(** A value held by a combination: a [str], the marker
    [{'type': 'results', 'var_name': t}], or a decoded JSON object. *)
Inductive pyval : Type :=
| PStr (s : string)
| PResults (var_name : string)
| PObj (o : obj).

Definition of_item (i : string + obj) : pyval :=
  match i with
  | inl s => PStr s
  | inr o => PObj o
  end.

(** [isinstance(v, dict)] *)
Definition is_dict (v : pyval) : bool :=
  match v with
  | PStr _ => false
  | PResults _ => true
  | PObj o => obj_is_dict o
  end.

(** [str(v)] *)
Definition py_str (v : pyval) : string :=
  match v with
  | PStr s => s
  | PResults t => "{'type': 'results', 'var_name': " ++ str_repr t ++ "}"
  | PObj o => obj_str o
  end.

(** What the parser binds a name to: a [str] for a literal, otherwise a
    [dict] with a ['type'] entry. *)
Inductive spec : Type :=
| Literal (value : string)
| FileRef (path : string)
| DirRef (path : string) (recursive : bool)
| ListRef (elements : list pyval)
| ResultsRef (var_name : string)
| InitialPromptRef.

Definition combination := Dict.t pyval.

End Model.

(* ===================================================================== *)
(** * The regular expressions *)
(* ===================================================================== *)

Module Re.

Import Py.

Definition in_range (lo hi : N) (c : ascii) : bool :=
  let n := N_of_ascii c in ((lo <=? n) && (n <=? hi))%N.

(** [[a-zA-Z_]] *)
Definition name_start (c : ascii) : bool :=
  in_range 97 122 c || in_range 65 90 c || Ascii.eqb c "_".

(** [[a-zA-Z0-9_]] *)
Definition name_char (c : ascii) : bool :=
  name_start c || in_range 48 57 c.

Definition not_comma (c : ascii) : bool := negb (Ascii.eqb c ",").

Fixpoint last_char (s : string) : string :=
  match s with
  | EmptyString => EmptyString
  | String c EmptyString => s
  | String _ s' => last_char s'
  end.

(** One attempt, at the head of [s], of the pattern of
    [parse_variable_definitions]: group 1 is a name ([name_start] then
    [name_char]s), then white space, "=", white space, group 2 "([^,]+)",
    and last "(?:,|$)".  The result is
    groups 1 and 2 and the number of characters matched.  Every quantifier
    is greedy; the only backtracking that can succeed is [\s*] giving back
    its last character when nothing but white space precedes the comma. *)
Definition definition_at (s : string) : option (string * string * nat) :=
  match s with
  | EmptyString => None
  | String c s1 =>
      if name_start c then
        let name := String c (take_while name_char s1) in
        let after_name := drop_while name_char s1 in
        let ws1 := take_while isspace after_name in
        match drop_while isspace after_name with
        | String "=" after_eq =>
            let body := take_while not_comma after_eq in
            let tail := drop_while not_comma after_eq in
            match body with
            | EmptyString => None
            | String _ _ =>
                let value :=
                  match drop_while isspace body with
                  | EmptyString => last_char body
                  | v => v
                  end in
                let comma := match tail with EmptyString => 0 | String _ _ => 1 end in
                Some (name, value,
                      String.length name + String.length ws1 + 1
                      + String.length body + comma)
            end
        | _ => None
        end
      else None
  end.

(** [re.finditer(pattern, s)]: leftmost matches, each search resuming where
    the previous match ended. *)
Fixpoint definitions_from (skip : nat) (s : string) : list (string * string) :=
  match s with
  | EmptyString => []
  | String _ s' =>
      match skip with
      | S k => definitions_from k s'
      | O =>
          match definition_at s with
          | Some (name, value, len) => (name, value) :: definitions_from (len - 1) s'
          | None => definitions_from 0 s'
          end
      end
  end.

Definition finditer_definitions (s : string) : list (string * string) :=
  definitions_from 0 s.

Definition not_rbrace (c : ascii) : bool := negb (Ascii.eqb c "}").

(** One attempt of the pattern "{{([^}]+)}}" at the head of [s]: the group and the
    number of characters matched.  The group takes every character up to
    the first "}" and must not be empty. *)
Definition placeholder_at (s : string) : option (string * nat) :=
  if startswith "{{" s then
    let name := take_while not_rbrace (drop 2 s) in
    if negb (String.eqb name "")
       && startswith "}}" (drop_while not_rbrace (drop 2 s))
    then Some (name, String.length name + 4)
    else None
  else None.

(** [re.findall] with the pattern "{{([^}]+)}}" *)
Fixpoint placeholders_from (skip : nat) (s : string) : list string :=
  match s with
  | EmptyString => []
  | String _ s' =>
      match skip with
      | S k => placeholders_from k s'
      | O =>
          match placeholder_at s with
          | Some (name, len) => name :: placeholders_from (len - 1) s'
          | None => placeholders_from 0 s'
          end
      end
  end.

Definition findall_placeholders (s : string) : list string :=
  placeholders_from 0 s.

End Re.

(* ===================================================================== *)
(** * Code that the two files have in common *)
(* ===================================================================== *)

(** The double quote, written apart because a Rocq string literal cannot
    hold it. *)
Definition DQ : string := String (ascii_of_nat 34) EmptyString.

Module Core.

Import Py.

Section WithHost.
Context {host : Host}.

(** The [$$dir(...)] branch of the parser: [var_value[6:-1].strip()], then
    the optional [recursive=True] parameter after the first comma. *)
Definition parse_dir (var_value : string) : option spec :=
  let dir_content := strip (slice_to_last 6 var_value) in
  if contains "," dir_content then
    match unpack2 (split1 "," dir_content) with
    | Some (dir_path, params) =>
        Some (DirRef (strip dir_path) (contains "recursive=True" params))
    | None => None
    end
  else Some (DirRef dir_content false).

(** The [$$list(...)] branch: [json.loads], a non-list wrapped in a
    one-item list, and the comma split when decoding fails; the [except]
    clause catches [json.JSONDecodeError] only. *)
Definition parse_list (var_value : string) : option spec :=
  let list_content := strip (slice_to_last 7 var_value) in
  match json_loads list_content with
  | IsList items => Some (ListRef (map of_item items))
  | NotAList => Some (ListRef [PStr list_content])
  | DecodeError =>
      Some (ListRef (map (fun elem => PStr (strip elem)) (split "," list_content)))
  | OtherError => None
  end.

(** The [else] branch: one pair of surrounding quotes is removed. *)
Definition parse_literal (var_value : string) : spec :=
  if (startswith DQ var_value && endswith DQ var_value)
     || (startswith "'" var_value && endswith "'" var_value)
  then Literal (slice_to_last 1 var_value)
  else Literal var_value.

(** The [for match in matches] loop over a loop body [bind]. *)
Fixpoint bind_all (bind : Dict.t spec -> string * string -> option (Dict.t spec))
    (matches : list (string * string)) (variables : Dict.t spec)
    : option (Dict.t spec) :=
  match matches with
  | [] => Some variables
  | m :: rest =>
      match bind variables m with
      | Some variables' => bind_all bind rest variables'
      | None => None
      end
  end.


(** ** Expansion *)

(** An entry of [iterative_vars]: [{"values": ..., "paths": ...}]. *)
Record iterative : Type := {
  values : list pyval;
  paths : list pyval
}.

(** What the first loop of [expand_variables] does with one variable: put
    it in [iterative_vars], put it in [fixed_vars], or leave it out. *)
Inductive slot : Type :=
| Iterative (d : iterative)
| Fixed (v : pyval)
| Dropped.

(** The ['file'] branch. *)
Definition resolve_file (fs : FileSystem) (path : string) : pyval :=
  match read_text fs path with
  | Some content => PStr content
  | None => PStr ("ERROR: Could not read file " ++ path)
  end.

(** [file_paths] of the ['dir'] branch; [os.listdir] may raise. *)
Definition dir_file_paths (fs : FileSystem) (base_path : string)
    (recursive : bool) : option (list string) :=
  if recursive then
    Some (flat_map (fun entry => map (os_path_join fs (fst entry)) (snd entry))
                   (os_walk fs base_path))
  else if os_path_exists fs base_path && os_path_isdir fs base_path then
    match os_listdir fs base_path with
    | Some names =>
        Some (map (os_path_join fs base_path)
                  (filter (fun f => os_path_isfile fs (os_path_join fs base_path f))
                          names))
    | None => None
    end
  else Some [].

(** The reading loop: [(file_contents, file_path_display)]; a file that
    cannot be read is skipped. *)
Fixpoint read_files (fs : FileSystem) (file_paths : list string)
    : list string * list string :=
  match file_paths with
  | [] => ([], [])
  | path :: rest =>
      let '(contents, display) := read_files fs rest in
      match read_text fs path with
      | Some content => (content :: contents, path :: display)
      | None => (contents, display)
      end
  end.

(** The ['dir'] branch. *)
Definition resolve_dir (fs : FileSystem) (base_path : string) (recursive : bool)
    : option slot :=
  match dir_file_paths fs base_path recursive with
  | None => None
  | Some file_paths =>
      let '(file_contents, file_path_display) := read_files fs file_paths in
      match file_contents with
      | [] => Some (Fixed (PStr ("No files found in " ++ base_path)))
      | _ :: _ =>
          Some (Iterative {| values := map PStr file_contents;
                             paths := map PStr file_path_display |})
      end
  end.

(** The first loop, over a per-variable case analysis [classify]. *)
Fixpoint collect (classify : spec -> option slot) (variables : Dict.t spec)
    (iterative_vars : Dict.t iterative) (fixed_vars : Dict.t pyval)
    : option (Dict.t iterative * Dict.t pyval) :=
  match variables with
  | [] => Some (iterative_vars, fixed_vars)
  | (var_name, var_value) :: rest =>
      match classify var_value with
      | None => None
      | Some (Iterative d) =>
          collect classify rest (Dict.set var_name d iterative_vars) fixed_vars
      | Some (Fixed v) =>
          collect classify rest iterative_vars (Dict.set var_name v fixed_vars)
      | Some Dropped => collect classify rest iterative_vars fixed_vars
      end
  end.

(** [for i, value in enumerate(var_data["values"])] on one [combo], from
    index [i] on; [var_data["paths"][i]] raises [IndexError] past the end. *)
Fixpoint extend (var_name : string) (var_data : iterative) (combo : combination)
    (i : nat) (vals : list pyval) : option (list combination) :=
  match vals with
  | [] => Some []
  | value :: rest =>
      match nth_error (paths var_data) i with
      | None => None
      | Some p =>
          match extend var_name var_data combo (S i) rest with
          | None => None
          | Some more =>
              Some (Dict.set (var_name ++ "_path") p (Dict.set var_name value combo)
                    :: more)
          end
      end
  end.

(** [for combo in combinations] *)
Fixpoint extend_all (var_name : string) (var_data : iterative)
    (combinations : list combination) : option (list combination) :=
  match combinations with
  | [] => Some []
  | combo :: rest =>
      match extend var_name var_data combo 0 (values var_data),
            extend_all var_name var_data rest with
      | Some new, Some more => Some (new ++ more)
      | _, _ => None
      end
  end.

(** [for var_name, var_data in iterative_vars.items()] *)
Fixpoint cross (iterative_vars : Dict.t iterative) (combinations : list combination)
    : option (list combination) :=
  match iterative_vars with
  | [] => Some combinations
  | (var_name, var_data) :: rest =>
      match extend_all var_name var_data combinations with
      | Some new_combinations => cross rest new_combinations
      | None => None
      end
  end.

(** [for var_name, value in fixed_vars.items(): combo[var_name] = value] *)
Definition add_fixed (fixed_vars : Dict.t pyval) (combo : combination) : combination :=
  fold_left (fun c kv => Dict.set (fst kv) (snd kv) c) fixed_vars combo.

(** [expand_variables] over [classify]. *)
Definition expand (classify : spec -> option slot) (variables : Dict.t spec)
    : option (list combination) :=
  match collect classify variables [] [] with
  | None => None
  | Some (iterative_vars, fixed_vars) =>
      match cross iterative_vars [[]] with
      | None => None
      | Some combinations => Some (map (add_fixed fixed_vars) combinations)
      end
  end.

(** ** Rendering *)

Definition placeholder (var_name : string) : string := "{{" ++ var_name ++ "}}".

(** [result.replace("{{" + var + "}}", f"UNDEFINED_VARIABLE_{var}")] *)
Definition mark_undefined (result var : string) : string :=
  replace (placeholder var) ("UNDEFINED_VARIABLE_" ++ var) result.

(** The second half of [render_template]. *)
Definition mark_remaining (result : string) : string :=
  fold_left mark_undefined (Re.findall_placeholders result) result.

End WithHost.

(** ** The model service *)

(** What a request to the service comes to: the text of the first content
    block, or an exception with its message [str(e)]. *)
Inductive outcome : Type :=
| Text (text : string)
| Failure (message : string).

(** The service as the programs see it.  [connect] is [Some message] when
    [anthropic.Anthropic(...)] itself raises; [create k] is what the request
    number [k] (from 0) comes to. *)
Record ModelService : Type := {
  connect : option string;
  create : nat -> outcome
}.

Definition error_text (message : string) : string :=
  "Error calling LLM: " ++ message.

(** [call_llm]: one request, number [k]. *)
Definition call_llm (svc : ModelService) (k : nat) : string :=
  match connect svc with
  | Some message => error_text message
  | None =>
      match create svc k with
      | Text text => text
      | Failure message => error_text message
      end
  end.

(** ** The log document *)

(** An [xml.etree.ElementTree.Element]. *)
Inductive element : Type :=
| Element (tag : string) (attrib : list (string * string)) (text : option string)
          (children : list element) (tail : option string).

Definition new_element (tag : string) : element := Element tag [] None [] None.

Definition leaf (tag text : string) : element := Element tag [] (Some text) [] None.

(** [ET.SubElement(parent, ...)]: the child is added after the others. *)
Definition append_child (parent child : element) : element :=
  match parent with
  | Element tag attrib text children tail =>
      Element tag attrib text (children ++ [child]) tail
  end.

Definition children_of (e : element) : list element :=
  match e with Element _ _ _ children _ => children end.

(** Every text and attribute value in the tree. *)
Fixpoint element_strings (e : element) : list string :=
  match e with
  | Element _ attrib text children _ =>
      map snd attrib
      ++ match text with Some t => [t] | None => [] end
      ++ flat_map element_strings children
  end.

(** Every tag and attribute name in the tree. *)
Fixpoint element_names (e : element) : list string :=
  match e with
  | Element tag attrib _ children _ =>
      tag :: map fst attrib ++ flat_map element_names children
  end.

(** What [log_session] needs around it: [exists] is [os.path.exists], [parse]
    is [ET.parse(log_file).getroot()] ([None] when it raises), [pretty] is
    [md.parseString(ET.tostring(root)).toprettyxml(indent)] ([None] when it
    raises), [makedirs] tells whether [os.makedirs(dirname, exist_ok=True)]
    and the opening of [log_file] for writing return. *)
Record LogStore : Type := {
  exists_file : string -> bool;
  parse : string -> option element;
  pretty : element -> option string;
  makedirs : string -> bool
}.

(** The root [log_session] appends to. *)
Definition open_root (store : LogStore) (log_file : string) : element :=
  if exists_file store log_file then
    match parse store log_file with
    | Some root => root
    | None => new_element "sessions"
    end
  else new_element "sessions".

(** [log_session] once the session element is built: the text written to
    [log_file], or [None] when an exception leaves the file as it was. *)
Definition write_log (store : LogStore) (log_file : string) (session : element)
    : option string :=
  let root := append_child (open_root store log_file) session in
  match pretty store root with
  | None => None
  | Some pretty_xml => if makedirs store log_file then Some pretty_xml else None
  end.

(** ** The name of the log file *)

(** [os.path.dirname] and [os.path.basename]. *)
Record PathNames : Type := {
  os_path_dirname : string -> string;
  os_path_basename : string -> string
}.

(** [get_log_filename], the same function in both files; [datetime_str] is
    the current time as [strftime] gives it.  [None] is the [ValueError] of
    an unpacking that does not get two parts. *)
Definition get_log_filename (fs : FileSystem) (names : PathNames)
    (base_path : string) (append_datetime : bool) (datetime_str : string)
    : option string :=
  if negb append_datetime then Some base_path
  else
    let directory := os_path_dirname names base_path in
    let filename := os_path_basename names base_path in
    if contains "." filename then
      match unpack2 (rsplit1 "." filename) with
      | Some (name, ext) =>
          Some (os_path_join fs directory
                  (name ++ "_" ++ datetime_str ++ "." ++ ext))
      | None => None
      end
    else Some (os_path_join fs directory (filename ++ "_" ++ datetime_str)).

(** What pressing the button of [main] comes to: the early return without
    an API key, an exception that leaves [main], the early return without
    combinations, or a session with, when the log was written, the path and
    the text of the log file. *)
Inductive run_result (S : Type) : Type :=
| MissingKey
| Raised
| NoCombinations
| Completed (session : S) (logged : option (string * string)).

Arguments MissingKey {S}.
Arguments Raised {S}.
Arguments NoCombinations {S}.
Arguments Completed {S} session logged.

(** The number of requests the loop of [batch_call_llm] sends, from number
    [k] on: it stops at the first exception. *)
Fixpoint requests_sent (svc : ModelService) (k n : nat) : nat :=
  match n with
  | O => O
  | S n' =>
      match create svc k with
      | Failure _ => 1
      | Text _ => S (requests_sent svc (S k) n')
      end
  end.

End Core.

(* ===================================================================== *)
(** * app3.py *)
(* ===================================================================== *)

Module App3.

Import Py Core.

Section WithHost.
Context {host : Host}.

(** Whether [var_value] is one of the special forms the parser completes. *)
Definition special_form (var_value : string) : bool :=
  (startswith "$$file(" var_value && endswith ")" var_value)
  || (startswith "$$dir(" var_value && endswith ")" var_value)
  || (startswith "$$list(" var_value && endswith ")" var_value).

(** Body of the loop of [parse_variable_definitions] for one match. *)
Definition bind (variables : Dict.t spec) (m : string * string)
    : option (Dict.t spec) :=
  let var_name := strip (fst m) in
  let var_value := strip (snd m) in
  if startswith "$$" var_value then
    if startswith "$$file(" var_value && endswith ")" var_value then
      let file_path := strip (slice_to_last 7 var_value) in
      Some (Dict.set var_name (FileRef file_path) variables)
    else if startswith "$$dir(" var_value && endswith ")" var_value then
      match parse_dir var_value with
      | Some d => Some (Dict.set var_name d variables)
      | None => None
      end
    else if startswith "$$list(" var_value && endswith ")" var_value then
      match parse_list var_value with
      | Some l => Some (Dict.set var_name l variables)
      | None => None
      end
    else Some variables
  else Some (Dict.set var_name (parse_literal var_value) variables).

Definition parse_variable_definitions (var_definitions : string)
    : option (Dict.t spec) :=
  bind_all bind (Re.finditer_definitions var_definitions) [].

(** The case analysis of the first loop of [expand_variables]; a [dict]
    whose ['type'] no branch names is left out. *)
Definition classify (fs : FileSystem) (var_value : spec) : option slot :=
  match var_value with
  | FileRef path => Some (Fixed (resolve_file fs path))
  | DirRef base_path recursive => resolve_dir fs base_path recursive
  | ListRef elements => Some (Iterative {| values := elements; paths := elements |})
  | ResultsRef _ => Some Dropped
  | InitialPromptRef => Some Dropped
  | Literal value => Some (Fixed (PStr value))
  end.

Definition expand_variables (fs : FileSystem) (variables : Dict.t spec)
    : option (list combination) :=
  expand (classify fs) variables.

(** Body of the first loop of [render_template]. *)
Definition substitute (result : string) (entry : string * pyval) : string :=
  let '(var_name, value) := entry in
  if negb (endswith "_path" var_name)
  then replace (placeholder var_name) (py_str value) result
  else result.

Definition render_template (template : string) (variables : combination) : string :=
  mark_remaining (fold_left substitute variables template).

(** [session_data] of [main]. *)
Record input_data : Type := {
  input_variables : combination;
  input_prompt : string;
  input_output : string
}.

Record session_data : Type := {
  llm_params : Dict.t pyval;
  inputs : list input_data
}.

(** The children of [<llm_parameters>]. *)
Definition params_children (params : Dict.t pyval) : list element :=
  map (fun p => leaf (fst p) (py_str (snd p)))
      (filter (fun p => negb (String.eqb (fst p) "api_key")) params).

Definition path_children (variables : combination) : list element :=
  map (fun v => leaf (fst v) (py_str (snd v)))
      (filter (fun v => endswith "_path" (fst v)) variables).

Definition input_element (params : Dict.t pyval) (i : nat) (d : input_data) : element :=
  Element ("input" ++ str_nat (i + 1)) [] None
    [ Element "variables" [] None
        (path_children (input_variables d)
         ++ [Element "llm_parameters" [] None (params_children params) None])
        None;
      leaf "prompt" (input_prompt d);
      leaf "output" (input_output d) ]
    None.

Fixpoint input_elements (params : Dict.t pyval) (i : nat) (ds : list input_data)
    : list element :=
  match ds with
  | [] => []
  | d :: rest => input_element params i d :: input_elements params (S i) rest
  end.

(** The [<session>] element [log_session] adds to the root. *)
Definition session_element (timestamp : string) (sd : session_data) : element :=
  Element "session" [("datetime", timestamp)] None
    (input_elements (llm_params sd) 0 (inputs sd)) None.

Definition log_session (store : LogStore) (timestamp log_file : string)
    (sd : session_data) : option string :=
  write_log store log_file (session_element timestamp sd).

(** The values of the widgets of [main]; [max_iterations_value] is the
    number [max_iterations] as the Python value put in the log. *)
Record settings : Type := {
  api_key : string;
  model : pyval;
  temperature : pyval;
  max_tokens : pyval;
  top_p : pyval;
  system_prompt : pyval;
  max_iterations : nat;
  max_iterations_value : pyval;
  log_file : string;
  append_datetime : bool;
  prompt_template : string;
  var_definitions : string
}.

(** The loop of [main] over the combinations, the requests numbered from
    [i]. *)
Fixpoint process_combinations (svc : ModelService) (template : string) (i : nat)
    (combinations : list combination) : list input_data :=
  match combinations with
  | [] => []
  | combo :: rest =>
      {| input_variables := combo;
         input_prompt := render_template template combo;
         input_output := call_llm svc i |}
      :: process_combinations svc template (S i) rest
  end.

(** [main] once the button is pressed; what it only shows on the page is
    left out.  [datetime_str] and [timestamp] are the current time in the
    formats of [get_log_filename] and [log_session]. *)
Definition main (fs : FileSystem) (svc : ModelService) (names : PathNames)
    (store : LogStore) (datetime_str timestamp : string) (ui : settings)
    : run_result session_data :=
  if String.eqb (api_key ui) "" then MissingKey
  else
    match parse_variable_definitions (var_definitions ui) with
    | None => Raised
    | Some variables =>
        match expand_variables fs variables with
        | None => Raised
        | Some [] => NoCombinations
        | Some combinations =>
            let combinations :=
              if Nat.ltb (max_iterations ui) (length combinations)
              then firstn (max_iterations ui) combinations
              else combinations in
            let session :=
              {| llm_params :=
                   [("api_key", PStr (api_key ui)); ("model", model ui);
                    ("temperature", temperature ui);
                    ("max_tokens", max_tokens ui); ("top_p", top_p ui);
                    ("system_prompt", system_prompt ui);
                    ("max_iterations", max_iterations_value ui)];
                 inputs :=
                   process_combinations svc (prompt_template ui) 0 combinations |} in
            Completed session
              match get_log_filename fs names (log_file ui) (append_datetime ui)
                      datetime_str with
              | None => None
              | Some final_log_file =>
                  match log_session store timestamp final_log_file session with
                  | Some pretty_xml => Some (final_log_file, pretty_xml)
                  | None => None
                  end
              end
        end
    end.

End WithHost.

End App3.

(* ===================================================================== *)
(** * best_of_n.py *)
(* ===================================================================== *)

Module BestOfN.

Import Py Core.

Section WithHost.
Context {host : Host}.

Definition special_form (var_value : string) : bool :=
  (startswith "$$file(" var_value && endswith ")" var_value)
  || (startswith "$$dir(" var_value && endswith ")" var_value)
  || (startswith "$$list(" var_value && endswith ")" var_value)
  || (startswith "$$results(" var_value && endswith ")" var_value)
  || (startswith "$$initial_prompt(" var_value && endswith ")" var_value).

Definition bind (variables : Dict.t spec) (m : string * string)
    : option (Dict.t spec) :=
  let var_name := strip (fst m) in
  let var_value := strip (snd m) in
  if startswith "$$" var_value then
    if startswith "$$file(" var_value && endswith ")" var_value then
      let file_path := strip (slice_to_last 7 var_value) in
      Some (Dict.set var_name (FileRef file_path) variables)
    else if startswith "$$dir(" var_value && endswith ")" var_value then
      match parse_dir var_value with
      | Some d => Some (Dict.set var_name d variables)
      | None => None
      end
    else if startswith "$$list(" var_value && endswith ")" var_value then
      match parse_list var_value with
      | Some l => Some (Dict.set var_name l variables)
      | None => None
      end
    else if startswith "$$results(" var_value && endswith ")" var_value then
      let results_var_name := strip (slice_to_last 10 var_value) in
      Some (Dict.set var_name (ResultsRef results_var_name) variables)
    else if startswith "$$initial_prompt(" var_value && endswith ")" var_value then
      Some (Dict.set var_name InitialPromptRef variables)
    else Some variables
  else Some (Dict.set var_name (parse_literal var_value) variables).

Definition parse_variable_definitions (var_definitions : string)
    : option (Dict.t spec) :=
  bind_all bind (Re.finditer_definitions var_definitions) [].

(** The case analysis of the first loop of [expand_variables]: there is a
    branch for ['results'] and none for ['initial_prompt']. *)
Definition classify (fs : FileSystem) (var_value : spec) : option slot :=
  match var_value with
  | FileRef path => Some (Fixed (resolve_file fs path))
  | DirRef base_path recursive => resolve_dir fs base_path recursive
  | ListRef elements => Some (Iterative {| values := elements; paths := elements |})
  | ResultsRef var_name => Some (Fixed (PResults var_name))
  | InitialPromptRef => Some Dropped
  | Literal value => Some (Fixed (PStr value))
  end.

Definition expand_variables (fs : FileSystem) (variables : Dict.t spec)
    : option (list combination) :=
  expand (classify fs) variables.

Definition substitute (result : string) (entry : string * pyval) : string :=
  let '(var_name, value) := entry in
  if negb (endswith "_path" var_name) && negb (is_dict value)
  then replace (placeholder var_name) (py_str value) result
  else result.

Definition render_template (template : string) (variables : combination) : string :=
  mark_remaining (fold_left substitute variables template).

(** [xml_outputs] of [process_special_variables], the outputs numbered from
    [i]. *)
Fixpoint xml_outputs (xml_var_name : string) (i : nat) (outputs : list string)
    : string :=
  match outputs with
  | [] => ""
  | output :: rest =>
      "<" ++ xml_var_name ++ str_nat i ++ ">" ++ LF ++ output ++ LF
      ++ "</" ++ xml_var_name ++ str_nat i ++ ">" ++ LF
      ++ xml_outputs xml_var_name (S i) rest
  end.

(** Body of the loop of [process_special_variables]. *)
Definition resolve (initial_prompt : string) (outputs : list string)
    (result : string) (entry : string * spec) : string :=
  let '(var_name, var_value) := entry in
  match var_value with
  | ResultsRef xml_var_name =>
      replace (placeholder var_name) (xml_outputs xml_var_name 1 outputs) result
  | InitialPromptRef => replace (placeholder var_name) initial_prompt result
  | _ => result
  end.

Definition process_special_variables (template : string) (variables : Dict.t spec)
    (initial_prompt : string) (outputs : list string) : string :=
  fold_left (resolve initial_prompt outputs) variables template.

(** The request loop of [batch_call_llm], [n] requests from number [k] on:
    the texts, or the message of the first exception. *)
Fixpoint request_all (svc : ModelService) (k n : nat) : string + list string :=
  match n with
  | O => inr []
  | S n' =>
      match create svc k with
      | Failure message => inl message
      | Text text =>
          match request_all svc (S k) n' with
          | inl message => inl message
          | inr texts => inr (text :: texts)
          end
      end
  end.

(** [batch_call_llm]; the single [try] spans the whole loop. *)
Definition batch_call_llm (svc : ModelService) (num_runs : nat) : list string :=
  match connect svc with
  | Some message => repeat (error_text message) num_runs
  | None =>
      match request_all svc 0 num_runs with
      | inr batch_results => batch_results
      | inl message => repeat (error_text message) num_runs
      end
  end.

Record run_data : Type := {
  run_prompt : string;
  run_output : string
}.

Record session_data : Type := {
  llm_params : Dict.t pyval;
  num_runs : nat;
  prompt_template : string;
  variables : Dict.t spec;
  runs : list run_data;
  eval_prompt_template : string;
  eval_variables : Dict.t spec;
  eval_rendered_prompt : string;
  eval_output : string
}.

(** [var_def.get("type", "")] *)
Definition type_of (var_def : spec) : string :=
  match var_def with
  | Literal _ => ""
  | FileRef _ => "file"
  | DirRef _ _ => "dir"
  | ListRef _ => "list"
  | ResultsRef _ => "results"
  | InitialPromptRef => "initial_prompt"
  end.

(** [str(b)] of a [bool] *)
Definition str_bool (b : bool) : string := if b then "True" else "False".

(** A child of [<variables>] in the initial section. *)
Definition variable_element (entry : string * spec) : element :=
  let '(var_name, var_def) := entry in
  match var_def with
  | Literal value => leaf var_name value
  | FileRef path => Element var_name [("type", "file"); ("path", path)] None [] None
  | DirRef path recursive =>
      Element var_name
        [("type", "dir"); ("path", path); ("recursive", str_bool recursive)]
        None [] None
  | _ => Element var_name [("type", type_of var_def)] None [] None
  end.

(** A child of [<variables>] in the evaluation section. *)
Definition eval_variable_element (entry : string * spec) : element :=
  let '(var_name, var_def) := entry in
  match var_def with
  | Literal value => leaf var_name value
  | ResultsRef results_var_name =>
      Element var_name [("type", "results"); ("var_name", results_var_name)]
        None [] None
  | _ => Element var_name [("type", type_of var_def)] None [] None
  end.

Definition params_children (params : Dict.t pyval) : list element :=
  map (fun p => leaf (fst p) (py_str (snd p)))
      (filter (fun p => negb (String.eqb (fst p) "api_key")) params).

Fixpoint run_elements (i : nat) (rs : list run_data) : list element :=
  match rs with
  | [] => []
  | r :: rest =>
      Element ("run" ++ str_nat (i + 1)) [] None
        [leaf "rendered_prompt" (run_prompt r); leaf "output" (run_output r)] None
      :: run_elements (S i) rest
  end.

(** The [<session>] element [log_session] adds to the root. *)
Definition session_element (timestamp : string) (sd : session_data) : element :=
  Element "session" [("datetime", timestamp)] None
    [ Element "initial_prompt" [("num_runs", str_nat (num_runs sd))] None
        [ Element "llm_parameters" [] None (params_children (llm_params sd)) None;
          leaf "prompt_template" (prompt_template sd);
          Element "variables" [] None (map variable_element (variables sd)) None;
          Element "runs" [] None (run_elements 0 (runs sd)) None ]
        None;
      Element "evaluation" [] None
        [ leaf "prompt_template" (eval_prompt_template sd);
          Element "variables" [] None
            (map eval_variable_element (eval_variables sd)) None;
          leaf "rendered_prompt" (eval_rendered_prompt sd);
          leaf "output" (eval_output sd) ]
        None ]
    None.

Definition log_session (store : LogStore) (timestamp log_file : string)
    (sd : session_data) : option string :=
  write_log store log_file (session_element timestamp sd).

(** The values of the widgets of [main]. *)
Record settings : Type := {
  api_key : string;
  model : pyval;
  temperature : pyval;
  max_tokens : pyval;
  top_p : pyval;
  system_prompt : pyval;
  runs_wanted : nat;
  log_file : string;
  append_datetime : bool;
  initial_prompt_template : string;
  initial_var_definitions : string;
  eval_template : string;
  eval_var_definitions : string
}.

(** [main] once the button is pressed; what it only shows on the page is
    left out.  The evaluation request follows the requests of the batch. *)
Definition main (fs : FileSystem) (svc : ModelService) (names : PathNames)
    (store : LogStore) (datetime_str timestamp : string) (ui : settings)
    : run_result session_data :=
  if String.eqb (api_key ui) "" then MissingKey
  else
    match parse_variable_definitions (initial_var_definitions ui) with
    | None => Raised
    | Some initial_variables =>
        match expand_variables fs initial_variables with
        | None => Raised
        | Some [] => NoCombinations
        | Some (combo :: _) =>
            let llm_params :=
              [("api_key", PStr (api_key ui)); ("model", model ui);
               ("temperature", temperature ui); ("max_tokens", max_tokens ui);
               ("top_p", top_p ui); ("system_prompt", system_prompt ui)] in
            let rendered_prompt :=
              render_template (initial_prompt_template ui) combo in
            let outputs := batch_call_llm svc (runs_wanted ui) in
            let run_data :=
              map (fun output => {| run_prompt := rendered_prompt;
                                    run_output := output |}) outputs in
            match parse_variable_definitions (eval_var_definitions ui) with
            | None => Raised
            | Some eval_variables =>
                let eval_rendered_prompt :=
                  process_special_variables (eval_template ui) eval_variables
                    rendered_prompt outputs in
                let eval_response :=
                  call_llm svc (requests_sent svc 0 (runs_wanted ui)) in
                let session :=
                  {| llm_params := llm_params;
                     num_runs := runs_wanted ui;
                     prompt_template := initial_prompt_template ui;
                     variables := initial_variables;
                     runs := run_data;
                     eval_prompt_template := eval_template ui;
                     eval_variables := eval_variables;
                     eval_rendered_prompt := eval_rendered_prompt;
                     eval_output := eval_response |} in
                Completed session
                  match get_log_filename fs names (log_file ui)
                          (append_datetime ui) datetime_str with
                  | None => None
                  | Some final_log_file =>
                      match log_session store timestamp final_log_file session with
                      | Some pretty_xml => Some (final_log_file, pretty_xml)
                      | None => None
                      end
                  end
            end
        end
    end.

End WithHost.

End BestOfN.

(* ===================================================================== *)
(** * Notions used to state the properties *)
(* ===================================================================== *)

Section Notions.
Context {host : Host}.

(** The variables that the first loop of [expand_variables] makes
    iterating, in declaration order, with their resolved values. *)
Definition iterating_of (classify : spec -> option Core.slot)
    (variables : Dict.t spec) : Dict.t Core.iterative :=
  flat_map (fun e => match classify (snd e) with
                     | Some (Core.Iterative d) => [(fst e, d)]
                     | _ => []
                     end) variables.

(** The variables it makes fixed, with their values. *)
Definition fixed_of (classify : spec -> option Core.slot)
    (variables : Dict.t spec) : Dict.t pyval :=
  flat_map (fun e => match classify (snd e) with
                     | Some (Core.Fixed v) => [(fst e, v)]
                     | _ => []
                     end) variables.

(** Product of the sizes of the value lists. *)
Definition size_product (iterative_vars : Dict.t Core.iterative) : nat :=
  fold_right Nat.mul 1 (map (fun e => length (Core.values (snd e))) iterative_vars).

(** No OS error escapes while the variables are resolved. *)
Definition resolvable (classify : spec -> option Core.slot)
    (variables : Dict.t spec) : Prop :=
  forall e, In e variables -> classify (snd e) <> None.

(** [os.listdir] raises for none of the directories the variables name. *)
Definition listable (fs : FileSystem) (variables : Dict.t spec) : Prop :=
  forall x path recursive,
    In (x, DirRef path recursive) variables ->
    Core.dir_file_paths fs path recursive <> None.

(** The two lists of an [iterative_vars] entry have one length. *)
Definition aligned (d : Core.iterative) : Prop :=
  length (Core.values d) = length (Core.paths d).



(** A match leaves a binding only if its value is a literal or a complete
    special form. *)
Definition binds (special_form : string -> bool) (m : string * string) : bool :=
  negb (Py.startswith "$$" (Py.strip (snd m))) || special_form (Py.strip (snd m)).

(** What a request would give on its own, as [call_llm] returns it. *)
Definition own_result (o : Core.outcome) : string :=
  match o with
  | Core.Text text => text
  | Core.Failure message => Core.error_text message
  end.

(** The run parameters without the credential entry. *)
Definition without_api_key (params : Dict.t pyval) : Dict.t pyval :=
  filter (fun p => negb (String.eqb (fst p) "api_key")) params.

Definition app3_redacted (sd : App3.session_data) : App3.session_data :=
  {| App3.llm_params := without_api_key (App3.llm_params sd);
     App3.inputs := App3.inputs sd |}.

Definition best_of_n_redacted (sd : BestOfN.session_data) : BestOfN.session_data :=
  {| BestOfN.llm_params := without_api_key (BestOfN.llm_params sd);
     BestOfN.num_runs := BestOfN.num_runs sd;
     BestOfN.prompt_template := BestOfN.prompt_template sd;
     BestOfN.variables := BestOfN.variables sd;
     BestOfN.runs := BestOfN.runs sd;
     BestOfN.eval_prompt_template := BestOfN.eval_prompt_template sd;
     BestOfN.eval_variables := BestOfN.eval_variables sd;
     BestOfN.eval_rendered_prompt := BestOfN.eval_rendered_prompt sd;
     BestOfN.eval_output := BestOfN.eval_output sd |}.

(** A template cut into plain text and placeholders. *)
Inductive segment : Type :=
| Plain (text : string)
| Hole (name : string).

Definition segment_text (g : segment) : string :=
  match g with
  | Plain text => text
  | Hole name => Core.placeholder name
  end.

(** The template a list of segments stands for. *)
Fixpoint spell (segments : list segment) : string :=
  match segments with
  | [] => ""
  | g :: rest => segment_text g ++ spell rest
  end.

(** [s] has no occurrence of the character [c]. *)
Fixpoint free_of (c : ascii) (s : string) : bool :=
  match s with
  | EmptyString => true
  | String a s' => negb (Ascii.eqb a c) && free_of c s'
  end.

(** Plain text has no opening brace; a placeholder name is not empty and
    has no brace. *)
Definition well_formed (g : segment) : Prop :=
  match g with
  | Plain text => free_of "{" text = true
  | Hole name => name <> "" /\ free_of "{" name = true /\ free_of "}" name = true
  end.

(** The entries the first loop of [render_template] substitutes. *)
Definition app3_usable (entry : string * pyval) : bool :=
  negb (Py.endswith "_path" (fst entry)).

Definition best_of_n_usable (entry : string * pyval) : bool :=
  negb (Py.endswith "_path" (fst entry)) && negb (is_dict (snd entry)).

(** The text of the first entry named [name] that the loop substitutes. *)
Fixpoint binding (usable : string * pyval -> bool) (variables : combination)
    (name : string) : option string :=
  match variables with
  | [] => None
  | (k, v) :: rest =>
      if usable (k, v) && String.eqb name k then Some (py_str v)
      else binding usable rest name
  end.

(** What a placeholder is expected to become. *)
Definition filled (usable : string * pyval -> bool) (variables : combination)
    (g : segment) : string :=
  match g with
  | Plain text => text
  | Hole name =>
      match binding usable variables name with
      | Some text => text
      | None => "UNDEFINED_VARIABLE_" ++ name
      end
  end.

(** The keys have no closing brace, and the substituted texts no opening
    brace. *)
Definition brace_safe (usable : string * pyval -> bool) (variables : combination)
    : Prop :=
  forall k v, In (k, v) variables ->
    free_of "}" k = true
    /\ (usable (k, v) = true -> free_of "{" (py_str v) = true).

(** One [replace] seen on segments: the placeholders of [k] become text. *)
Definition fill_one (k new : string) (g : segment) : segment :=
  match g with
  | Plain _ => g
  | Hole n => if String.eqb n k then Plain new else g
  end.

(** The first loop of [render_template] seen on segments. *)
Definition resolve_segment (usable : string * pyval -> bool)
    (variables : combination) (g : segment) : segment :=
  match g with
  | Plain _ => g
  | Hole n =>
      match binding usable variables n with
      | Some text => Plain text
      | None => g
      end
  end.

(** The second loop seen on segments, for the names in [names]. *)
Definition mark_segment (names : list string) (g : segment) : segment :=
  match g with
  | Plain _ => g
  | Hole n =>
      if existsb (String.eqb n) names
      then Plain ("UNDEFINED_VARIABLE_" ++ n)
      else g
  end.

(** The names of the placeholders, in order. *)
Fixpoint holes (segments : list segment) : list string :=
  match segments with
  | [] => []
  | Plain _ :: rest => holes rest
  | Hole n :: rest => n :: holes rest
  end.

(** The expected rendering of a template given by its segments. *)
Definition rendering (usable : string * pyval -> bool) (variables : combination)
    (segments : list segment) : string :=
  spell (map (fun g => Plain (filled usable variables g)) segments).

(** A combination in which [x] holds the value number [i] of [d] and its
    companion holds the path number [i]. *)
Definition paired (x : string) (d : Core.iterative) (combo : combination) : Prop :=
  exists i v p,
    nth_error (Core.values d) i = Some v /\ nth_error (Core.paths d) i = Some p
    /\ Dict.get x combo = Some v /\ Dict.get (x ++ "_path") combo = Some p.

(** Names that cannot touch the entries of [x]. *)
Definition apart (x y : string) : Prop :=
  y <> x /\ y <> (x ++ "_path")%string
  /\ (y ++ "_path")%string <> x /\ (y ++ "_path")%string <> (x ++ "_path")%string.

(** [read_text] returns for [path]. *)
Definition readable (fs : FileSystem) (path : string) : bool :=
  match read_text fs path with Some _ => true | None => false end.

(** Every character of [s] passes [p]. *)
Fixpoint all_chars (p : ascii -> bool) (s : string) : bool :=
  match s with
  | EmptyString => true
  | String c s' => p c && all_chars p s'
  end.

(** A name as the pattern of the parser accepts it. *)
Definition identifier (name : string) : bool :=
  match name with
  | EmptyString => false
  | String c rest => Re.name_start c && all_chars Re.name_char rest
  end.

(** No directory variable of the mapping is recursive. *)
Definition flat (variables : Dict.t spec) : Prop :=
  forall k path recursive, In (k, DirRef path recursive) variables -> recursive = false.

(** Every name of the mapping is a name the pattern accepts. *)
Definition named (variables : Dict.t spec) : Prop :=
  forall k, In k (Dict.keys variables) -> identifier k = true.

(** The quote characters the parser strips. *)
Definition quote_char (q : ascii) : Prop := q = ascii_of_nat 34 \/ q = "'"%char.

(** The text [process_special_variables] puts for a value: the numbered
    blocks for a results marker, the initial prompt for an initial-prompt
    marker, nothing for any other value. *)
Definition special_text (initial_prompt : string) (outputs : list string)
    (s : spec) : option string :=
  match s with
  | ResultsRef xml_var_name => Some (BestOfN.xml_outputs xml_var_name 1 outputs)
  | InitialPromptRef => Some initial_prompt
  | _ => None
  end.

(** The first special entry of the mapping named [n], as text. *)
Fixpoint special_binding (initial_prompt : string) (outputs : list string)
    (variables : Dict.t spec) (n : string) : option string :=
  match variables with
  | [] => None
  | (k, s) :: rest =>
      match special_text initial_prompt outputs s with
      | Some t =>
          if String.eqb n k then Some t
          else special_binding initial_prompt outputs rest n
      | None => special_binding initial_prompt outputs rest n
      end
  end.

(** A segment after the resolver: a placeholder of a special entry becomes
    its text, any other segment stays. *)
Definition resolve_special (initial_prompt : string) (outputs : list string)
    (variables : Dict.t spec) (g : segment) : segment :=
  match g with
  | Plain text => Plain text
  | Hole n =>
      match special_binding initial_prompt outputs variables n with
      | Some t => Plain t
      | None => Hole n
      end
  end.

(** Special entries whose names hold no closing brace and whose texts hold
    no opening brace. *)
Definition special_safe (initial_prompt : string) (outputs : list string)
    (variables : Dict.t spec) : Prop :=
  forall k s t, In (k, s) variables ->
    special_text initial_prompt outputs s = Some t ->
    free_of "}" k = true /\ free_of "{" t = true.

End Notions.

(** A small host and file system on which the definitions run: the only
    JSON text it decodes is the empty list. *)
Definition sample_host : Host := {|
  obj := nat;
  obj_is_dict := fun _ => false;
  obj_str := Py.str_nat;
  str_repr := fun s => ("'" ++ s ++ "'")%string;
  json_loads := fun s => if String.eqb s "[]" then IsList [] else DecodeError
|}.

(** A file system whose only directory, [./empty_folder], holds no file. *)
Definition sample_fs : FileSystem := {|
  read_text := fun _ => None;
  os_walk := fun top => if String.eqb top "./empty_folder" then [(top, [])] else [];
  os_path_exists := fun p => String.eqb p "./empty_folder";
  os_path_isdir := fun p => String.eqb p "./empty_folder";
  os_path_isfile := fun _ => false;
  os_listdir := fun p => if String.eqb p "./empty_folder" then Some [] else None;
  os_path_join := fun a b => (a ++ "/" ++ b)%string
|}.

(** A file system with one directory, [./d], holding the readable file
    [a.txt] and the unreadable file [b.bin]. *)
Definition one_file_fs : FileSystem := {|
  read_text := fun p => if String.eqb p "./d/a.txt" then Some "hello" else None;
  os_walk := fun top => if String.eqb top "./d" then [(top, ["a.txt"; "b.bin"])] else [];
  os_path_exists := fun p => String.eqb p "./d";
  os_path_isdir := fun p => String.eqb p "./d";
  os_path_isfile := fun p => String.eqb p "./d/a.txt" || String.eqb p "./d/b.bin";
  os_listdir := fun p => if String.eqb p "./d" then Some ["a.txt"; "b.bin"] else None;
  os_path_join := fun a b => (a ++ "/" ++ b)%string
|}.

(** A host whose [json.loads] raises, on the text [deep], an exception that
    is not a [JSONDecodeError]. *)
Definition raising_host : Host := {|
  obj := nat;
  obj_is_dict := fun _ => false;
  obj_str := Py.str_nat;
  str_repr := fun s => ("'" ++ s ++ "'")%string;
  json_loads := fun s =>
    if String.eqb s "[]" then IsList []
    else if String.eqb s "deep" then OtherError else DecodeError
|}.

(** A service whose second request fails. *)
Definition second_fails : Core.ModelService := {|
  Core.connect := None;
  Core.create := fun k =>
    match k with
    | 1 => Core.Failure "boom"
    | 0 => Core.Text "a"
    | _ => Core.Text "c"
    end
|}.

(** A session whose system prompt repeats the credential. *)
Definition leaky_session : BestOfN.session_data (host := sample_host) := {|
  BestOfN.llm_params := [("api_key", PStr "sk-1"); ("system_prompt", PStr "sk-1")];
  BestOfN.num_runs := 2;
  BestOfN.prompt_template := "p";
  BestOfN.variables := [];
  BestOfN.runs := [];
  BestOfN.eval_prompt_template := "e";
  BestOfN.eval_variables := [];
  BestOfN.eval_rendered_prompt := "e";
  BestOfN.eval_output := "o"
|}.

(** A file system with one directory, [./d], holding the readable files
    [a.txt] and [b.txt]. *)
Definition two_file_fs : FileSystem := {|
  read_text := fun p =>
    if String.eqb p "./d/a.txt" then Some "hello"
    else if String.eqb p "./d/b.txt" then Some "world" else None;
  os_walk := fun top => if String.eqb top "./d" then [(top, ["a.txt"; "b.txt"])] else [];
  os_path_exists := fun p => String.eqb p "./d";
  os_path_isdir := fun p => String.eqb p "./d";
  os_path_isfile := fun p => String.eqb p "./d/a.txt" || String.eqb p "./d/b.txt";
  os_listdir := fun p => if String.eqb p "./d" then Some ["a.txt"; "b.txt"] else None;
  os_path_join := fun a b => (a ++ "/" ++ b)%string
|}.

(** Path names cut at the last slash. *)
Definition sample_names : Core.PathNames := {|
  Core.os_path_dirname := fun p =>
    match Py.rcut "/" p with Some (d, _) => d | None => "" end;
  Core.os_path_basename := fun p =>
    match Py.rcut "/" p with Some (_, b) => b | None => p end
|}.

(** A store without a log file, whose text of a document is the list of its
    element names. *)
Definition sample_store : Core.LogStore := {|
  Core.exists_file := fun _ => false;
  Core.parse := fun _ => None;
  Core.pretty := fun root => Some (String.concat " " (Core.element_names root));
  Core.makedirs := fun _ => true
|}.

(** A store whose log file is there and cannot be parsed. *)
Definition damaged_store : Core.LogStore := {|
  Core.exists_file := fun _ => true;
  Core.parse := fun _ => None;
  Core.pretty := fun root => Some (String.concat " " (Core.element_names root));
  Core.makedirs := fun _ => true
|}.

(** A service that answers every request. *)
Definition always_answers : Core.ModelService := {|
  Core.connect := None;
  Core.create := fun k => Core.Text ("answer " ++ Py.str_nat k)
|}.

(** Settings of [app3.py] that ask for one combination of a directory of
    two files. *)
Definition sample_settings : App3.settings (host := sample_host) := {|
  App3.api_key := "sk-1";
  App3.model := PStr "m";
  App3.temperature := PObj (1 : @obj sample_host);
  App3.max_tokens := PObj (1024 : @obj sample_host);
  App3.top_p := PObj (1 : @obj sample_host);
  App3.system_prompt := PStr "";
  App3.max_iterations := 1;
  App3.max_iterations_value := PObj (1 : @obj sample_host);
  App3.log_file := "logs/prompt_tests.xml";
  App3.append_datetime := true;
  App3.prompt_template := "Sum up {{doc}}.";
  App3.var_definitions := "doc=$$dir(./d)"
|}.

(** Settings of [best_of_n.py] that ask for two runs over a directory of
    two files. *)
Definition sample_evaluation : BestOfN.settings (host := sample_host) := {|
  BestOfN.api_key := "sk-1";
  BestOfN.model := PStr "m";
  BestOfN.temperature := PObj (1 : @obj sample_host);
  BestOfN.max_tokens := PObj (1024 : @obj sample_host);
  BestOfN.top_p := PObj (1 : @obj sample_host);
  BestOfN.system_prompt := PStr "";
  BestOfN.runs_wanted := 2;
  BestOfN.log_file := "logs/best_of_n_tests.xml";
  BestOfN.append_datetime := false;
  BestOfN.initial_prompt_template := "Sum up {{doc}}.";
  BestOfN.initial_var_definitions := "doc=$$dir(./d)";
  BestOfN.eval_template := "{{initial_prompt}} {{outputs}}";
  BestOfN.eval_var_definitions := "outputs=$$results(Output), initial_prompt=$$initial_prompt()"
|}.

(* ===================================================================== *)
(** * Runs on small inputs *)
(* ===================================================================== *)

Section Runs.
Existing Instance sample_host.

Example parse_mixed :
  App3.parse_variable_definitions
    "a = 1 , docs=$$dir(./x), q='it', body=$$file( notes.txt ), none=$$list([])"
  = Some [("a", Literal "1"); ("docs", DirRef "./x" false); ("q", Literal "it");
          ("body", FileRef "notes.txt"); ("none", ListRef [])].
Proof. reflexivity. Qed.

Example parse_later_wins :
  App3.parse_variable_definitions "a=1, b=2, a=3"
  = Some [("a", Literal "3"); ("b", Literal "2")].
Proof. reflexivity. Qed.

Example parse_evaluation_defaults :
  BestOfN.parse_variable_definitions
    "outputs=$$results(Output), initial_prompt=$$initial_prompt()"
  = Some [("outputs", ResultsRef "Output"); ("initial_prompt", InitialPromptRef)].
Proof. reflexivity. Qed.

(** The variable declared first varies slowest. *)
Example expand_two_lists :
  App3.expand_variables sample_fs
    [("x", ListRef [PStr "1"; PStr "2"]); ("k", Literal "c");
     ("y", ListRef [PStr "a"; PStr "b"])]
  = Some [ [("x", PStr "1"); ("x_path", PStr "1"); ("y", PStr "a");
            ("y_path", PStr "a"); ("k", PStr "c")];
           [("x", PStr "1"); ("x_path", PStr "1"); ("y", PStr "b");
            ("y_path", PStr "b"); ("k", PStr "c")];
           [("x", PStr "2"); ("x_path", PStr "2"); ("y", PStr "a");
            ("y_path", PStr "a"); ("k", PStr "c")];
           [("x", PStr "2"); ("x_path", PStr "2"); ("y", PStr "b");
            ("y_path", PStr "b"); ("k", PStr "c")] ].
Proof. reflexivity. Qed.

Example expand_empty_list :
  App3.expand_variables sample_fs [("k", Literal "c"); ("x", ListRef [])] = Some [].
Proof. reflexivity. Qed.

Example render_twice :
  App3.render_template "{{x}} and {{x}}, not {{x_path}}"
    [("x", PStr "1"); ("x_path", PStr "1")]
  = "1 and 1, not UNDEFINED_VARIABLE_x_path".
Proof. reflexivity. Qed.

Example render_skips_marker :
  BestOfN.render_template "{{outputs}}" [("outputs", PResults "Output")]
  = "UNDEFINED_VARIABLE_outputs".
Proof. reflexivity. Qed.

Example resolve_initial_prompt :
  BestOfN.process_special_variables
    "<InputPrompt>{{initial_prompt}}</InputPrompt>{{outputs}}"
    [("outputs", ResultsRef "Output"); ("initial_prompt", InitialPromptRef)]
    "Say hi" ["hi"]
  = ("<InputPrompt>Say hi</InputPrompt><Output1>" ++ Py.LF ++ "hi" ++ Py.LF
     ++ "</Output1>" ++ Py.LF)%string.
Proof. reflexivity. Qed.

Example batch_all_answered :
  BestOfN.batch_call_llm
    {| Core.connect := None; Core.create := fun k => Core.Text (Py.str_nat k) |} 3
  = ["0"; "1"; "2"].
Proof. reflexivity. Qed.

End Runs.

(* ===================================================================== *)
(** * Dictionaries *)
(* ===================================================================== *)

Section DictFacts.
Context {V : Type}.
Implicit Types (d : list (string * V)) (k : string) (v : V).

Lemma get_set_same k v d : Dict.get k (Dict.set k v d) = Some v.
Proof.
  induction d as [|[k' v'] d IH]; simpl.
  - now rewrite String.eqb_refl.
  - destruct (String.eqb k k') eqn:E; simpl; rewrite E; auto.
Qed.

Lemma get_set_other k k' v d :
  k <> k' -> Dict.get k (Dict.set k' v d) = Dict.get k d.
Proof.
  intros N. induction d as [|[k0 v0] d IH]; simpl.
  - apply String.eqb_neq in N. now rewrite N.
  - destruct (String.eqb k' k0) eqn:E; simpl.
    + apply String.eqb_eq in E. subst k0.
      apply String.eqb_neq in N. now rewrite N.
    + now rewrite IH.
Qed.

Lemma get_none_notin k d : ~ In k (Dict.keys d) -> Dict.get k d = None.
Proof.
  induction d as [|[k' v'] d IH]; simpl; intros H; auto.
  destruct (String.eqb k k') eqn:E.
  - apply String.eqb_eq in E. subst. tauto.
  - apply IH. tauto.
Qed.

Lemma get_some_in k v d : Dict.get k d = Some v -> In (k, v) d.
Proof.
  induction d as [|[k' v'] d IH]; simpl; intros H; try discriminate.
  destruct (String.eqb k k') eqn:E.
  - apply String.eqb_eq in E. inversion H. subst. now left.
  - right. auto.
Qed.

Lemma in_get_nodup k v d :
  NoDup (Dict.keys d) -> In (k, v) d -> Dict.get k d = Some v.
Proof.
  induction d as [|[k' v'] d IH]; simpl; intros ND H; [tauto|].
  inversion ND as [|? ? Hn ND']; subst.
  destruct H as [H|H].
  - inversion H; subst. now rewrite String.eqb_refl.
  - destruct (String.eqb k k') eqn:E.
    + apply String.eqb_eq in E. subst. exfalso. apply Hn.
      change k' with (fst (k', v)). now apply in_map.
    + auto.
Qed.

Lemma set_fresh k v d : ~ In k (Dict.keys d) -> Dict.set k v d = d ++ [(k, v)].
Proof.
  induction d as [|[k' v'] d IH]; simpl; intros H; auto.
  destruct (String.eqb k k') eqn:E.
  - apply String.eqb_eq in E. subst. tauto.
  - rewrite IH; tauto.
Qed.

Lemma keys_set_present k v d :
  In k (Dict.keys d) -> Dict.keys (Dict.set k v d) = Dict.keys d.
Proof.
  induction d as [|[k' v'] d IH]; simpl; intros H; [tauto|].
  destruct (String.eqb k k') eqn:E; simpl; auto.
  f_equal. apply IH. destruct H as [H|H]; auto.
  apply String.eqb_neq in E. congruence.
Qed.

Lemma nodup_keys_set k v d :
  NoDup (Dict.keys d) -> NoDup (Dict.keys (Dict.set k v d)).
Proof.
  intros ND. destruct (in_dec string_dec k (Dict.keys d)) as [I|N].
  - now rewrite keys_set_present.
  - rewrite set_fresh by assumption. unfold Dict.keys. rewrite map_app. simpl.
    apply NoDup_app; auto.
    + constructor; [simpl; tauto | constructor].
    + intros a Ha [Hb|[]]. subst. contradiction.
Qed.

Lemma in_keys_set k k' v d :
  In k (Dict.keys (Dict.set k' v d)) <-> k = k' \/ In k (Dict.keys d).
Proof.
  destruct (in_dec string_dec k' (Dict.keys d)) as [I|N].
  - rewrite keys_set_present by assumption. split; [tauto|].
    intros [->|H]; auto.
  - rewrite set_fresh by assumption. unfold Dict.keys. rewrite map_app, in_app_iff.
    simpl. split; [intros [H|[H|[]]]; auto | intros [->|H]; auto].
Qed.

End DictFacts.

(* ===================================================================== *)
(** * The expander *)
(* ===================================================================== *)

Section ExpandFacts.
Context {host : Host}.
Import Core.

Lemma extend_ok var_name d combo vals : forall i,
  i + length vals <= length (paths d) ->
  exists l, extend var_name d combo i vals = Some l /\ length l = length vals.
Proof.
  induction vals as [|value rest IH]; simpl; intros i Hi.
  - now exists [].
  - destruct (nth_error (paths d) i) as [p|] eqn:Hp.
    + destruct (IH (S i)) as [more [-> Hl]]; [lia|].
      eexists. split; [reflexivity|]. simpl. now rewrite Hl.
    + apply nth_error_None in Hp. lia.
Qed.

Lemma extend_all_ok var_name d combinations :
  aligned d ->
  exists l, extend_all var_name d combinations = Some l
            /\ length l = length combinations * length (values d).
Proof.
  intros Ha. induction combinations as [|combo rest IH]; simpl.
  - now exists [].
  - destruct (extend_ok var_name d combo (values d) 0) as [new [-> Hn]].
    { unfold aligned in Ha. simpl. lia. }
    destruct IH as [more [-> Hm]].
    eexists. split; [reflexivity|]. rewrite length_app. lia.
Qed.

Lemma cross_ok iterative_vars : forall combinations,
  Forall (fun e => aligned (snd e)) iterative_vars ->
  exists l, cross iterative_vars combinations = Some l
            /\ length l = length combinations * size_product iterative_vars.
Proof.
  induction iterative_vars as [|[var_name d] rest IH]; simpl; intros combinations Hf.
  - exists combinations. split; [reflexivity|]. unfold size_product. simpl. lia.
  - inversion Hf as [|? ? Hd Hrest]; subst. simpl in Hd.
    destruct (extend_all_ok var_name d combinations Hd) as [new [-> Hn]].
    destruct (IH new Hrest) as [l [-> Hl]].
    exists l. split; [reflexivity|]. rewrite Hl, Hn.
    unfold size_product. simpl. lia.
Qed.

Lemma add_fixed_notin k fixed_vars : forall combo,
  ~ In k (Dict.keys fixed_vars) ->
  Dict.get k (add_fixed fixed_vars combo) = Dict.get k combo.
Proof.
  unfold add_fixed.
  induction fixed_vars as [|[k0 v0] rest IH]; simpl; intros combo Hn; auto.
  rewrite IH by tauto. apply get_set_other. intros ->. tauto.
Qed.

Lemma add_fixed_in k v fixed_vars : forall combo,
  NoDup (Dict.keys fixed_vars) -> In (k, v) fixed_vars ->
  Dict.get k (add_fixed fixed_vars combo) = Some v.
Proof.
  induction fixed_vars as [|[k0 v0] rest IH]; simpl; intros combo ND Hin; [tauto|].
  inversion ND as [|? ? Hn ND']; subst.
  destruct Hin as [Heq|Hin].
  - inversion Heq; subst.
    change (Dict.get k (add_fixed rest (Dict.set k v combo)) = Some v).
    rewrite add_fixed_notin by assumption. apply get_set_same.
  - change (Dict.get k (add_fixed rest (Dict.set k0 v0 combo)) = Some v). auto.
Qed.

Lemma add_fixed_fresh fixed_vars : forall combo,
  NoDup (Dict.keys combo ++ Dict.keys fixed_vars) ->
  add_fixed fixed_vars combo = combo ++ fixed_vars.
Proof.
  unfold add_fixed.
  induction fixed_vars as [|[k0 v0] rest IH]; simpl; intros combo ND.
  - now rewrite app_nil_r.
  - assert (Hn : ~ In k0 (Dict.keys combo)).
    { apply NoDup_remove_2 in ND. intros Hk. apply ND. apply in_or_app. now left. }
    rewrite set_fresh by assumption.
    rewrite IH.
    + now rewrite <- app_assoc.
    + unfold Dict.keys in *. rewrite map_app. simpl. rewrite <- app_assoc. exact ND.
Qed.

Variable classify : spec -> option slot.
Hypothesis classify_aligned :
  forall s d, classify s = Some (Iterative d) -> aligned d.

Lemma keys_iterating_of variables k :
  In k (Dict.keys (iterating_of classify variables)) -> In k (Dict.keys variables).
Proof.
  induction variables as [|[n s] rest IH]; simpl; auto.
  unfold iterating_of in *. simpl.
  destruct (classify s) as [[d|v|]|]; simpl; intros H; auto.
  destruct H; auto.
Qed.

Lemma keys_fixed_of variables k :
  In k (Dict.keys (fixed_of classify variables)) -> In k (Dict.keys variables).
Proof.
  induction variables as [|[n s] rest IH]; simpl; auto.
  unfold fixed_of in *. simpl.
  destruct (classify s) as [[d|v|]|]; simpl; intros H; auto.
  destruct H; auto.
Qed.

Lemma nodup_fixed_of variables :
  NoDup (Dict.keys variables) -> NoDup (Dict.keys (fixed_of classify variables)).
Proof.
  induction variables as [|[n s] rest IH]; simpl; intros ND.
  - constructor.
  - inversion ND as [|? ? Hn ND']; subst.
    unfold fixed_of in *. simpl.
    destruct (classify s) as [[d|v|]|]; simpl; auto.
    constructor; auto. intros Hk. apply Hn. now apply keys_fixed_of.
Qed.

Lemma aligned_iterating_of variables :
  Forall (fun e => aligned (snd e)) (iterating_of classify variables).
Proof.
  induction variables as [|[n s] rest IH]; simpl.
  - constructor.
  - unfold iterating_of in *. simpl.
    destruct (classify s) as [[d|v|]|] eqn:E; simpl; auto.
    constructor; auto. simpl. eauto.
Qed.

(** With distinct names, the first loop splits the variables in two,
    keeping their order. *)
Lemma collect_partition variables : forall iterative_vars fixed_vars,
  NoDup (Dict.keys variables) ->
  (forall k, In k (Dict.keys variables) ->
             ~ In k (Dict.keys iterative_vars) /\ ~ In k (Dict.keys fixed_vars)) ->
  resolvable classify variables ->
  collect classify variables iterative_vars fixed_vars
  = Some (iterative_vars ++ iterating_of classify variables,
          fixed_vars ++ fixed_of classify variables).
Proof.
  induction variables as [|[n s] rest IH]; simpl; intros iv fv ND Hd Hr.
  - now rewrite !app_nil_r.
  - inversion ND as [|? ? Hn ND']; subst.
    assert (Hrest : resolvable classify rest).
    { intros e He. apply Hr. now right. }
    destruct (Hd n (or_introl eq_refl)) as [Hiv Hfv].
    unfold iterating_of, fixed_of. simpl.
    destruct (classify s) as [[d|v|]|] eqn:E.
    + rewrite set_fresh by assumption. rewrite IH; auto.
      * simpl. now rewrite <- app_assoc.
      * intros k Hk. destruct (Hd k (or_intror Hk)) as [H1 H2]. split; auto.
        unfold Dict.keys. rewrite map_app, in_app_iff. simpl.
        intros [H|[H|[]]]; [now apply H1 | subst; contradiction].
    + rewrite set_fresh by assumption. rewrite IH; auto.
      * simpl. now rewrite <- app_assoc.
      * intros k Hk. destruct (Hd k (or_intror Hk)) as [H1 H2]. split; auto.
        unfold Dict.keys. rewrite map_app, in_app_iff. simpl.
        intros [H|[H|[]]]; [now apply H2 | subst; contradiction].
    + rewrite IH; auto.
    + exfalso. apply (Hr (n, s)); [now left | exact E].
Qed.

(** What [expand_variables] returns, in terms of the two groups. *)
Lemma expand_spec variables :
  NoDup (Dict.keys variables) ->
  resolvable classify variables ->
  exists combinations,
    expand classify variables = Some combinations
    /\ length combinations = size_product (iterating_of classify variables)
    /\ (forall combo k v, In combo combinations ->
          In (k, v) (fixed_of classify variables) -> Dict.get k combo = Some v)
    /\ (iterating_of classify variables = [] ->
          combinations = [fixed_of classify variables]).
Proof.
  intros ND Hr. unfold expand.
  rewrite (collect_partition variables [] [] ND); [|simpl; tauto|assumption].
  simpl.
  destruct (cross_ok (iterating_of classify variables) [[]]
              (aligned_iterating_of variables)) as [l [Hl Hlen]].
  rewrite Hl. eexists. split; [reflexivity|].
  pose proof (nodup_fixed_of variables ND) as NDf.
  repeat split.
  - rewrite length_map, Hlen. simpl. lia.
  - intros combo k v Hin Hkv. apply in_map_iff in Hin.
    destruct Hin as [c [<- _]]. now apply add_fixed_in.
  - intros Hnil. rewrite Hnil in Hl. simpl in Hl. inversion Hl; subst. simpl.
    f_equal. now apply add_fixed_fresh.
Qed.

End ExpandFacts.

Section ExpandTheorems.
Context {host : Host}.
Import Core.

Lemma read_files_aligned fs file_paths :
  length (fst (read_files fs file_paths)) = length (snd (read_files fs file_paths)).
Proof.
  induction file_paths as [|path rest IH]; simpl; auto.
  destruct (read_files fs rest) as [contents display]. simpl in IH.
  destruct (read_text fs path); simpl; auto.
Qed.

Lemma resolve_dir_aligned fs base_path recursive d :
  resolve_dir fs base_path recursive = Some (Iterative d) -> aligned d.
Proof.
  unfold resolve_dir.
  destruct (dir_file_paths fs base_path recursive) as [file_paths|]; [|discriminate].
  pose proof (read_files_aligned fs file_paths) as Ha.
  destruct (read_files fs file_paths) as [contents display]. simpl in Ha.
  destruct contents as [|c cs]; [discriminate|].
  intros H. inversion H; subst. unfold aligned. simpl.
  rewrite !length_map. exact Ha.
Qed.

Lemma app3_classify_aligned fs s d :
  App3.classify fs s = Some (Iterative d) -> aligned d.
Proof.
  destruct s; simpl; try discriminate.
  - apply resolve_dir_aligned.
  - intros H. inversion H. reflexivity.
Qed.

Lemma best_of_n_classify_aligned fs s d :
  BestOfN.classify fs s = Some (Iterative d) -> aligned d.
Proof.
  destruct s; simpl; try discriminate.
  - apply resolve_dir_aligned.
  - intros H. inversion H. reflexivity.
Qed.

Lemma resolve_dir_some fs path recursive :
  dir_file_paths fs path recursive <> None -> resolve_dir fs path recursive <> None.
Proof.
  unfold resolve_dir. destruct (dir_file_paths fs path recursive); [|tauto].
  intros _. destruct (read_files fs l) as [[|c cs] display]; discriminate.
Qed.

Lemma app3_resolvable fs variables :
  listable fs variables -> resolvable (App3.classify fs) variables.
Proof.
  intros Hl [x s] Hin. destruct s; simpl; try discriminate.
  apply resolve_dir_some. eapply Hl; eauto.
Qed.

Lemma best_of_n_resolvable fs variables :
  listable fs variables -> resolvable (BestOfN.classify fs) variables.
Proof.
  intros Hl [x s] Hin. destruct s; simpl; try discriminate.
  apply resolve_dir_some. eapply Hl; eauto.
Qed.

Lemma in_fixed_of classify variables k s v :
  In (k, s) variables -> classify s = Some (Fixed v) ->
  In (k, v) (fixed_of classify variables).
Proof.
  intros Hin Hc. unfold fixed_of. apply in_flat_map.
  exists (k, s). split; auto. simpl. rewrite Hc. now left.
Qed.

Lemma in_iterating_of classify variables k d :
  In (k, d) (iterating_of classify variables) ->
  exists s, In (k, s) variables /\ classify s = Some (Iterative d).
Proof.
  unfold iterating_of. rewrite in_flat_map. intros [[n s] [Hin H]]. simpl in H.
  destruct (classify s) as [[d'|v|]|] eqn:E; simpl in H; try tauto.
  destruct H as [H|[]]. inversion H; subst. eauto.
Qed.

Lemma nodup_keys_unique {V : Type} (d : list (string * V)) k v1 v2 :
  NoDup (Dict.keys d) -> In (k, v1) d -> In (k, v2) d -> v1 = v2.
Proof.
  intros ND H1 H2.
  apply (in_get_nodup _ _ _ ND) in H1. apply (in_get_nodup _ _ _ ND) in H2.
  congruence.
Qed.

(** An empty directory resolves to the fixed text. *)
Lemma resolve_dir_empty fs path recursive file_paths :
  dir_file_paths fs path recursive = Some file_paths ->
  fst (read_files fs file_paths) = [] ->
  resolve_dir fs path recursive = Some (Fixed (PStr ("No files found in " ++ path))).
Proof.
  intros Hp He. unfold resolve_dir. rewrite Hp.
  destruct (read_files fs file_paths) as [contents display]. simpl in He.
  now subst contents.
Qed.

(** What both expanders do with an empty directory, over [classify]. *)
Lemma empty_dir_spec (classify : spec -> option slot) variables x path recursive :
  (forall s d, classify s = Some (Iterative d) -> aligned d) ->
  classify (DirRef path recursive)
    = Some (Fixed (PStr ("No files found in " ++ path))) ->
  NoDup (Dict.keys variables) ->
  resolvable classify variables ->
  In (x, DirRef path recursive) variables ->
  exists combinations,
    expand classify variables = Some combinations
    /\ (forall combo, In combo combinations ->
          Dict.get x combo = Some (PStr ("No files found in " ++ path)))
    /\ ~ In x (Dict.keys (iterating_of classify variables))
    /\ length combinations = size_product (iterating_of classify variables)
    /\ (iterating_of classify variables = [] ->
          combinations = [fixed_of classify variables]).
Proof.
  intros Ha Hc ND Hr Hin.
  destruct (expand_spec classify Ha variables ND Hr) as [l [He [Hlen [Hfix Hone]]]].
  exists l. repeat split; auto.
  - intros combo Hcombo. eapply Hfix; eauto. eapply in_fixed_of; eauto.
  - intros Hk. apply in_map_iff in Hk. destruct Hk as [[k d] [Hkx Hkd]].
    simpl in Hkx. subst k. apply in_iterating_of in Hkd.
    destruct Hkd as [s [Hs Hcs]].
    assert (s = DirRef path recursive) by (eapply nodup_keys_unique; eauto).
    subst s. congruence.
Qed.

(** C5: for a mapping with distinct names, [expand_variables] returns as
    many combinations as the product of the sizes of the value lists of the
    iterating variables; every combination holds every fixed variable with
    its value, a literal with its text; with no iterating variable the
    result is the one combination made of the fixed variables. *)
Theorem expand_variables_product fs (variables : Dict.t spec) :
  NoDup (Dict.keys variables) ->
  listable fs variables ->
  exists combinations,
    App3.expand_variables fs variables = Some combinations
    /\ length combinations
       = size_product (iterating_of (App3.classify fs) variables)
    /\ (forall combo k v, In combo combinations ->
          In (k, v) (fixed_of (App3.classify fs) variables) ->
          Dict.get k combo = Some v)
    /\ (forall combo k value, In combo combinations ->
          In (k, Literal value) variables -> Dict.get k combo = Some (PStr value))
    /\ (forall k elements, In (k, ListRef elements) variables ->
          In (k, {| values := elements; paths := elements |})
             (iterating_of (App3.classify fs) variables))
    /\ (iterating_of (App3.classify fs) variables = [] ->
          combinations = [fixed_of (App3.classify fs) variables]).
Proof.
  intros ND Hl.
  destruct (expand_spec (App3.classify fs) (app3_classify_aligned fs) variables ND
              (app3_resolvable fs variables Hl)) as [l [He [Hlen [Hfix Hone]]]].
  exists l. repeat split; auto.
  - intros combo k value Hc Hin. eapply Hfix; eauto.
    eapply in_fixed_of; eauto.
  - intros k elements Hin. unfold iterating_of. apply in_flat_map.
    exists (k, ListRef elements). split; auto. simpl. now left.
Qed.

(** C9: when the files read for a [$$dir] variable come to an empty list,
    both expanders still return: the variable is fixed to the text
    [No files found in <path>] in every combination, it does not count
    among the iterating variables, and a mapping made of this variable
    alone gives exactly one combination. *)
Theorem empty_dir_degrades fs (variables : Dict.t spec) x path recursive file_paths :
  NoDup (Dict.keys variables) ->
  listable fs variables ->
  In (x, DirRef path recursive) variables ->
  dir_file_paths fs path recursive = Some file_paths ->
  fst (read_files fs file_paths) = [] ->
  (exists combinations,
     App3.expand_variables fs variables = Some combinations
     /\ (forall combo, In combo combinations ->
           Dict.get x combo = Some (PStr ("No files found in " ++ path)))
     /\ ~ In x (Dict.keys (iterating_of (App3.classify fs) variables))
     /\ length combinations
        = size_product (iterating_of (App3.classify fs) variables)
     /\ (iterating_of (App3.classify fs) variables = [] ->
           combinations = [fixed_of (App3.classify fs) variables]))
  /\ (exists combinations,
     BestOfN.expand_variables fs variables = Some combinations
     /\ (forall combo, In combo combinations ->
           Dict.get x combo = Some (PStr ("No files found in " ++ path)))
     /\ ~ In x (Dict.keys (iterating_of (BestOfN.classify fs) variables))
     /\ length combinations
        = size_product (iterating_of (BestOfN.classify fs) variables)
     /\ (iterating_of (BestOfN.classify fs) variables = [] ->
           combinations = [fixed_of (BestOfN.classify fs) variables]))
  /\ App3.expand_variables fs [(x, DirRef path recursive)]
     = Some [[(x, PStr ("No files found in " ++ path))]]
  /\ BestOfN.expand_variables fs [(x, DirRef path recursive)]
     = Some [[(x, PStr ("No files found in " ++ path))]].
Proof.
  intros ND Hl Hin Hp He.
  pose proof (resolve_dir_empty fs path recursive file_paths Hp He) as Hr.
  split; [|split; [|split]].
  - apply empty_dir_spec with (recursive := recursive); auto.
    + apply app3_classify_aligned.
    + now apply app3_resolvable.
  - apply empty_dir_spec with (recursive := recursive); auto.
    + apply best_of_n_classify_aligned.
    + now apply best_of_n_resolvable.
  - unfold App3.expand_variables, expand. simpl. rewrite Hr. reflexivity.
  - unfold BestOfN.expand_variables, expand. simpl. rewrite Hr. reflexivity.
Qed.

(** A [$$results] entry is kept as a fixed marker in every combination. *)
Lemma results_carried_through fs (variables : Dict.t spec) k var_name :
  NoDup (Dict.keys variables) ->
  listable fs variables ->
  In (k, ResultsRef var_name) variables ->
  exists combinations,
    BestOfN.expand_variables fs variables = Some combinations
    /\ forall combo, In combo combinations ->
         Dict.get k combo = Some (PResults var_name).
Proof.
  intros ND Hl Hin.
  destruct (expand_spec (BestOfN.classify fs) (best_of_n_classify_aligned fs)
              variables ND (best_of_n_resolvable fs variables Hl))
    as [l [He [_ [Hfix _]]]].
  exists l. split; [exact He|].
  intros combo Hc. eapply Hfix; eauto. eapply in_fixed_of; eauto.
Qed.

(** C8: [expand_variables] of [best_of_n.py] keeps a [$$results] entry as a
    fixed marker and loses a [$$initial_prompt] entry: the mapping
    [{p: {'type': 'initial_prompt'}}] expands to one empty combination. *)
Theorem expand_loses_initial_prompt fs :
  BestOfN.expand_variables fs [("p", InitialPromptRef)] = Some [[]]
  /\ BestOfN.expand_variables fs
       [("outputs", ResultsRef "Output"); ("initial_prompt", InitialPromptRef)]
     = Some [[("outputs", PResults "Output")]].
Proof. split; reflexivity. Qed.

End ExpandTheorems.

(** Witness of [expand_variables_product]: one literal and one list of two. *)
Lemma expand_variables_product_witness :
  exists combinations,
    App3.expand_variables (host := sample_host) sample_fs
      [("topic", Literal "water"); ("n", ListRef [PStr "a"; PStr "b"])]
    = Some combinations
    /\ length combinations = 2.
Proof.
  destruct (expand_variables_product (host := sample_host) sample_fs
              [("topic", Literal "water"); ("n", ListRef [PStr "a"; PStr "b"])])
    as [l [He [Hlen _]]].
  - repeat constructor; simpl; intuition discriminate.
  - intros x path recursive [H|[H|[]]]; discriminate.
  - exists l. split; [exact He | rewrite Hlen; reflexivity].
Defined.

(** Witness of [empty_dir_degrades]: the empty folder of [sample_fs]. *)
Lemma empty_dir_degrades_witness :
  App3.expand_variables (host := sample_host) sample_fs
    [("docs", DirRef "./empty_folder" false)]
  = Some [[("docs", PStr "No files found in ./empty_folder")]].
Proof.
  refine (proj1 (proj2 (proj2
    (empty_dir_degrades (host := sample_host) sample_fs
       [("docs", DirRef "./empty_folder" false)] "docs" "./empty_folder" false []
       _ _ _ _ _)))).
  - repeat constructor; simpl; intuition discriminate.
  - intros x path recursive [H|[]]. inversion H; subst. discriminate.
  - now left.
  - reflexivity.
  - reflexivity.
Defined.

(* ===================================================================== *)
(** * The parser *)
(* ===================================================================== *)

Section ParserTheorems.
Context {host : Host}.
Import Py Core.












(** The names of a parsed mapping are distinct, as the keys of a [dict]
    are. *)
Lemma bind_all_nodup
    (bind : Dict.t spec -> string * string -> option (Dict.t spec)) :
  (forall variables m variables',
     bind variables m = Some variables' ->
     NoDup (Dict.keys variables) -> NoDup (Dict.keys variables')) ->
  forall matches variables result,
    bind_all bind matches variables = Some result ->
    NoDup (Dict.keys variables) -> NoDup (Dict.keys result).
Proof.
  intros Hb. induction matches as [|m rest IH]; simpl; intros variables result H ND.
  - inversion H; subst. exact ND.
  - destruct (bind variables m) as [variables'|] eqn:E; [|discriminate]. eauto.
Qed.

Lemma parsed_names_distinct (var_definitions : string) (variables : Dict.t spec) :
  App3.parse_variable_definitions var_definitions = Some variables
  \/ BestOfN.parse_variable_definitions var_definitions = Some variables ->
  NoDup (Dict.keys variables).
Proof.
  intros [H|H].
  - eapply (bind_all_nodup App3.bind); [|exact H|constructor].
    intros vs m vs' Hm ND.
    revert Hm. unfold App3.bind. cbv zeta.
    repeat match goal with
           | |- context [if ?c then _ else _] => destruct c
           | |- context [match parse_dir ?v with _ => _ end] => destruct (parse_dir v)
           | |- context [match parse_list ?v with _ => _ end] => destruct (parse_list v)
           end;
      intros Hm; inversion Hm; subst; auto using nodup_keys_set.
  - eapply (bind_all_nodup BestOfN.bind); [|exact H|constructor].
    intros vs m vs' Hm ND.
    revert Hm. unfold BestOfN.bind. cbv zeta.
    repeat match goal with
           | |- context [if ?c then _ else _] => destruct c
           | |- context [match parse_dir ?v with _ => _ end] => destruct (parse_dir v)
           | |- context [match parse_list ?v with _ => _ end] => destruct (parse_list v)
           end;
      intros Hm; inversion Hm; subst; auto using nodup_keys_set.
Qed.

(** C1: on the definitions [topic="water", n=$$list(["a","b"])] the
    pattern stops the value of [n] at its first comma, the cut value is no
    complete special form and binds nothing; so there is one combination,
    and the template [{{topic}}-{{n}}] renders to
    [water-UNDEFINED_VARIABLE_n]. *)
Theorem water_example_one_combination fs :
  Re.finditer_definitions
    ("topic=" ++ DQ ++ "water" ++ DQ ++ ", n=$$list([" ++ DQ ++ "a" ++ DQ ++ ","
     ++ DQ ++ "b" ++ DQ ++ "])")%string
  = [("topic", (DQ ++ "water" ++ DQ)%string); ("n", ("$$list([" ++ DQ ++ "a" ++ DQ)%string)]
  /\ App3.parse_variable_definitions
       ("topic=" ++ DQ ++ "water" ++ DQ ++ ", n=$$list([" ++ DQ ++ "a" ++ DQ ++ ","
        ++ DQ ++ "b" ++ DQ ++ "])")%string
     = Some [("topic", Literal "water")]
  /\ App3.expand_variables fs [("topic", Literal "water")]
     = Some [[("topic", PStr "water")]]
  /\ map (App3.render_template "{{topic}}-{{n}}") [[("topic", PStr "water")]]
     = ["water-UNDEFINED_VARIABLE_n"].
Proof. repeat split; reflexivity. Qed.


End ParserTheorems.



(** The exception of [json.loads] leaves both parsers, whatever the other
    definitions of the string are. *)
Example parser_raises_with_json_loads :
  App3.parse_variable_definitions (host := raising_host) "a=1, n=$$list(deep), b=2"
  = None
  /\ BestOfN.parse_variable_definitions (host := raising_host)
       "a=1, n=$$list(deep), b=2"
     = None
  /\ App3.parse_variable_definitions (host := raising_host) "a=1, n=$$list(deep"
     = Some [("a", Literal "1")].
Proof. repeat split; reflexivity. Qed.

(* ===================================================================== *)
(** * The repeated-run loop *)
(* ===================================================================== *)

Section BatchTheorems.
Import Core.

Lemma request_all_texts svc n : forall k,
  (forall j, j < n -> exists t, create svc (k + j) = Text t) ->
  BestOfN.request_all svc k n = inr (map (fun j => own_result (create svc j)) (seq k n)).
Proof.
  induction n as [|n IH]; simpl; intros k Hall; auto.
  destruct (Hall 0) as [t Ht]; [lia|]. rewrite Nat.add_0_r in Ht. rewrite Ht.
  rewrite IH.
  - reflexivity.
  - intros j Hj. destruct (Hall (S j)) as [t' Ht']; [lia|].
    exists t'. now rewrite <- Nat.add_succ_comm in Ht'.
Qed.

Lemma request_all_failure svc n : forall k i e,
  i < n -> create svc (k + i) = Failure e ->
  (forall j, j < i -> exists t, create svc (k + j) = Text t) ->
  BestOfN.request_all svc k n = inl e.
Proof.
  induction n as [|n IH]; simpl; intros k i e Hi He Hbefore; [lia|].
  destruct i as [|i].
  - rewrite Nat.add_0_r in He. now rewrite He.
  - destruct (Hbefore 0) as [t Ht]; [lia|]. rewrite Nat.add_0_r in Ht. rewrite Ht.
    rewrite (IH (S k) i e); auto; try lia.
    + now rewrite Nat.add_succ_comm.
    + intros j Hj. destruct (Hbefore (S j)) as [t' Ht']; [lia|].
      exists t'. now rewrite Nat.add_succ_comm.
Qed.

Lemma request_all_length svc n : forall k l,
  BestOfN.request_all svc k n = inr l -> length l = n.
Proof.
  induction n as [|n IH]; simpl; intros k l H.
  - now inversion H.
  - destruct (create svc k); [|discriminate].
    destruct (BestOfN.request_all svc (S k) n) eqn:E; [discriminate|].
    inversion H; subst. simpl. f_equal. eauto.
Qed.

(** C3: [batch_call_llm] always returns [num_runs] results; when a request
    fails, the first failure ends the loop and every result is the error
    text of that failure; the results are the responses in request order
    only when no request fails. *)
Theorem batch_call_llm_all_or_nothing svc (num_runs : nat) :
  connect svc = None ->
  (forall i e, i < num_runs -> create svc i = Failure e ->
     (forall j, j < i -> exists t, create svc j = Text t) ->
     BestOfN.batch_call_llm svc num_runs = repeat (error_text e) num_runs)
  /\ ((forall j, j < num_runs -> exists t, create svc j = Text t) ->
      BestOfN.batch_call_llm svc num_runs
      = map (fun j => own_result (create svc j)) (seq 0 num_runs))
  /\ length (BestOfN.batch_call_llm svc num_runs) = num_runs.
Proof.
  intros Hc. unfold BestOfN.batch_call_llm. rewrite Hc. repeat split.
  - intros i e Hi He Hbefore.
    now rewrite (request_all_failure svc num_runs 0 i e).
  - intros Hall. now rewrite request_all_texts.
  - destruct (BestOfN.request_all svc 0 num_runs) eqn:E.
    + apply repeat_length.
    + eapply request_all_length; eauto.
Qed.

End BatchTheorems.

(** Counterexample to C3 as stated: of three requests the second fails, and
    the first and third results are the error text too. *)
Lemma batch_failure_reaches_siblings :
  BestOfN.batch_call_llm second_fails 3
  = ["Error calling LLM: boom"; "Error calling LLM: boom"; "Error calling LLM: boom"]
  /\ BestOfN.batch_call_llm second_fails 3
     <> map (fun j => own_result (Core.create second_fails j)) (seq 0 3).
Proof. split; [reflexivity | discriminate]. Qed.

(** Witness of [batch_call_llm_all_or_nothing]. *)
Lemma batch_call_llm_all_or_nothing_witness :
  BestOfN.batch_call_llm second_fails 3 = repeat (Core.error_text "boom") 3.
Proof.
  apply (proj1 (batch_call_llm_all_or_nothing second_fails 3 eq_refl) 1 "boom").
  - lia.
  - reflexivity.
  - intros j Hj. assert (j = 0) by lia. subst. now exists "a".
Defined.

(* ===================================================================== *)
(** * The session logger *)
(* ===================================================================== *)

Section LoggerTheorems.
Context {host : Host}.
Import Core.

Lemma filter_idem {A : Type} (f : A -> bool) (l : list A) :
  filter f (filter f l) = filter f l.
Proof.
  induction l as [|a l IH]; simpl; auto.
  destruct (f a) eqn:E; simpl; [rewrite E|]; congruence.
Qed.

Lemma without_api_key_get params :
  Dict.get "api_key" (without_api_key params) = None.
Proof.
  induction params as [|[k v] rest IH]; [reflexivity|].
  unfold without_api_key in *. cbn [filter fst].
  destruct (String.eqb k "api_key") eqn:E; cbn [negb].
  - exact IH.
  - cbn [Dict.get]. rewrite String.eqb_sym, E. exact IH.
Qed.

Lemma app3_input_elements_redacted params i ds :
  App3.input_elements (without_api_key params) i ds = App3.input_elements params i ds.
Proof.
  revert i. induction ds as [|d rest IH]; simpl; intros i; auto.
  rewrite IH. unfold App3.input_element, App3.params_children, without_api_key.
  now rewrite filter_idem.
Qed.

(** C10: the [<session>] element of either logger is computed from the run
    parameters with the [api_key] entry taken out: it holds no element for
    that entry and is the same whatever the credential is. *)
Theorem session_element_omits_api_key (timestamp : string) :
  (forall sd, App3.session_element timestamp sd
              = App3.session_element timestamp (app3_redacted sd))
  /\ (forall sd, BestOfN.session_element timestamp sd
                 = BestOfN.session_element timestamp (best_of_n_redacted sd))
  /\ (forall sd, Dict.get "api_key" (App3.llm_params (app3_redacted sd)) = None)
  /\ (forall sd, Dict.get "api_key" (BestOfN.llm_params (best_of_n_redacted sd)) = None)
  /\ (forall params e, In e (App3.params_children params) ->
        match e with Element tag _ _ _ _ => tag <> "api_key" end)
  /\ (forall params e, In e (BestOfN.params_children params) ->
        match e with Element tag _ _ _ _ => tag <> "api_key" end).
Proof.
  repeat split.
  - intros sd. unfold App3.session_element, app3_redacted. simpl.
    now rewrite app3_input_elements_redacted.
  - intros sd. unfold BestOfN.session_element, best_of_n_redacted. simpl.
    unfold BestOfN.params_children, without_api_key. now rewrite filter_idem.
  - intros sd. apply without_api_key_get.
  - intros sd. apply without_api_key_get.
  - intros params e Hin. unfold App3.params_children in Hin.
    apply in_map_iff in Hin. destruct Hin as [[k v] [<- Hf]].
    apply filter_In in Hf. destruct Hf as [_ Hf]. simpl in *.
    apply negb_true_iff in Hf. now apply String.eqb_neq.
  - intros params e Hin. unfold BestOfN.params_children in Hin.
    apply in_map_iff in Hin. destruct Hin as [[k v] [<- Hf]].
    apply filter_In in Hf. destruct Hf as [_ Hf]. simpl in *.
    apply negb_true_iff in Hf. now apply String.eqb_neq.
Qed.

(** [write_log] keeps every child of the root it opened and puts the new
    session after them. *)
Lemma write_log_appends store log_file session pretty_xml :
  write_log store log_file session = Some pretty_xml ->
  exists root,
    pretty store root = Some pretty_xml
    /\ children_of root = children_of (open_root store log_file) ++ [session].
Proof.
  unfold write_log. intros H.
  destruct (pretty store (append_child (open_root store log_file) session)) eqn:E;
    [|discriminate].
  destruct (makedirs store log_file); [|discriminate]. inversion H; subst.
  eexists. split; [exact E|]. now destruct (open_root store log_file).
Qed.

End LoggerTheorems.

(** Counterexample to C10 as stated: the credential value is in the text of
    the [<system_prompt>] element. *)
Lemma credential_value_can_be_logged :
  Dict.get "api_key" (BestOfN.llm_params leaky_session) = Some (PStr "sk-1")
  /\ In "sk-1" (Core.element_strings (BestOfN.session_element "now" leaky_session)).
Proof. split; [reflexivity | simpl; tauto]. Qed.

(* ===================================================================== *)
(** * The renderer *)
(* ===================================================================== *)

Section StringFacts.
Import Py.

Lemma append_nil_r (s : string) : (s ++ "")%string = s.
Proof. induction s; simpl; congruence. Qed.

Lemma append_assoc (a b c : string) : ((a ++ b) ++ c = a ++ (b ++ c))%string.
Proof. induction a; simpl; congruence. Qed.

Lemma length_append (a b : string) :
  String.length (a ++ b) = String.length a + String.length b.
Proof. induction a; simpl; auto. Qed.

Lemma startswith_append (p s : string) : startswith p (p ++ s) = true.
Proof.
  induction p as [|c p IH]; simpl; auto. now rewrite Ascii.eqb_refl.
Qed.

Lemma free_of_append c (a b : string) :
  free_of c (a ++ b) = free_of c a && free_of c b.
Proof.
  induction a as [|x a IH]; simpl; auto. now rewrite IH, andb_assoc.
Qed.

(** [replace_from] passes over the characters it was told to skip. *)
Lemma replace_from_skip old new (p s : string) :
  replace_from old new (String.length p) (p ++ s) = replace_from old new 0 s.
Proof.
  induction p as [|c p IH]; simpl; auto.
Qed.

(** An occurrence starts with the first character of [old]; text without
    that character is copied. *)
Lemma replace_from_free c old' new (t s : string) :
  free_of c t = true ->
  replace_from (String c old') new 0 (t ++ s)
  = (t ++ replace_from (String c old') new 0 s)%string.
Proof.
  induction t as [|a t IH]; simpl; intros Hf; auto.
  apply andb_true_iff in Hf. destruct Hf as [Ha Ht].
  rewrite Ascii.eqb_sym. apply negb_true_iff in Ha. rewrite Ha. simpl.
  now rewrite IH.
Qed.

(** An occurrence at the head is replaced and the scan goes on after it. *)
Lemma replace_from_hit c old' new (s : string) :
  replace_from (String c old') new 0 (String c old' ++ s)
  = (new ++ replace_from (String c old') new 0 s)%string.
Proof.
  change (replace_from (String c old') new 0 (String c (old' ++ s))
          = (new ++ replace_from (String c old') new 0 s)%string).
  cbn [replace_from].
  change (String c (old' ++ s)) with (String c old' ++ s)%string.
  rewrite startswith_append. f_equal.
  simpl. rewrite Nat.sub_0_r. apply replace_from_skip.
Qed.

(** Two brace-free names that agree up to the closing braces are equal. *)
Lemma closing_unique (k n rest : string) :
  free_of "}" k = true -> free_of "}" n = true ->
  startswith (k ++ "}}") (n ++ "}}" ++ rest) = true -> k = n.
Proof.
  revert n. induction k as [|a k IH]; intros n Hk Hn H.
  - destruct n as [|b n]; auto.
    cbn [append startswith free_of] in Hn, H.
    apply andb_true_iff in Hn. destruct Hn as [Hb _].
    apply negb_true_iff in Hb. rewrite Ascii.eqb_sym, Hb in H. discriminate.
  - cbn [free_of] in Hk. apply andb_true_iff in Hk. destruct Hk as [Ha Hk].
    apply negb_true_iff in Ha.
    destruct n as [|b n]; cbn [append startswith free_of] in Hn, H.
    + rewrite Ha in H. discriminate.
    + apply andb_true_iff in Hn. destruct Hn as [_ Hn].
      apply andb_true_iff in H. destruct H as [Hab H].
      apply Ascii.eqb_eq in Hab. subst b. f_equal. now apply IH.
Qed.

Lemma placeholder_unfold (n : string) :
  Core.placeholder n = String "{" (String "{" (n ++ "}}")).
Proof. reflexivity. Qed.

(** The first character after the two opening braces of a well-formed
    placeholder is no opening brace. *)
Lemma after_braces_not_brace (n rest p : string) :
  free_of "{" n = true ->
  startswith (String "{" p) (n ++ "}}" ++ rest) = false.
Proof.
  destruct n as [|b n]; cbn [append startswith free_of]; auto.
  intros H. apply andb_true_iff in H. destruct H as [Hb _].
  apply negb_true_iff in Hb. now rewrite Ascii.eqb_sym, Hb.
Qed.

(** The placeholder of another name is copied. *)
Lemma replace_from_miss (k n new rest : string) :
  k <> n ->
  free_of "}" k = true -> free_of "}" n = true -> free_of "{" n = true ->
  replace_from (Core.placeholder k) new 0 (Core.placeholder n ++ rest)
  = (Core.placeholder n ++ replace_from (Core.placeholder k) new 0 rest)%string.
Proof.
  intros Hne Hk Hn Hn'.
  rewrite !placeholder_unfold.
  change (String "{" (String "{" (n ++ "}}")) ++ rest)%string
    with (String "{" (String "{" ((n ++ "}}") ++ rest))).
  rewrite append_assoc.
  cbn [replace_from].
  assert (H1 : startswith (String "{" (String "{" (k ++ "}}")))
                 (String "{" (String "{" (n ++ "}}" ++ rest))) = false).
  { cbn [startswith]. rewrite Ascii.eqb_refl. cbn [andb].
    destruct (startswith (k ++ "}}") (n ++ "}}" ++ rest)) eqn:E; auto.
    exfalso. apply Hne. eapply closing_unique; eauto. }
  rewrite H1.
  assert (H2 : startswith (String "{" (String "{" (k ++ "}}")))
                 (String "{" (n ++ "}}" ++ rest)) = false).
  { cbn [startswith]. rewrite Ascii.eqb_refl. cbn [andb].
    now apply after_braces_not_brace. }
  rewrite H2.
  rewrite <- append_assoc.
  rewrite (replace_from_free "{" _ new (n ++ "}}") rest).
  - reflexivity.
  - rewrite free_of_append, Hn'. reflexivity.
Qed.

End StringFacts.

Section RenderFacts.
Context {host : Host}.
Import Py Core.

Lemma replace_placeholder (k new s : string) :
  replace (placeholder k) new s = replace_from (placeholder k) new 0 s.
Proof. reflexivity. Qed.

(** [replace] of a placeholder, on a template given by its segments. *)
Lemma replace_spell (k new : string) (segments : list segment) :
  Forall well_formed segments ->
  free_of "}" k = true ->
  replace (placeholder k) new (spell segments)
  = spell (map (fill_one k new) segments).
Proof.
  intros Hwf Hk. rewrite replace_placeholder.
  induction Hwf as [|g rest Hg Hrest IH]; [reflexivity|].
  destruct g as [text|n]; cbn [spell map segment_text fill_one].
  - rewrite placeholder_unfold, replace_from_free by exact Hg.
    rewrite <- placeholder_unfold. now rewrite IH.
  - destruct Hg as [_ [Hn Hn']].
    destruct (String.eqb n k) eqn:E; cbn [spell segment_text].
    + apply String.eqb_eq in E. subst n.
      rewrite (placeholder_unfold k) at 2. rewrite (placeholder_unfold k) at 1.
      rewrite replace_from_hit. rewrite <- placeholder_unfold. now rewrite IH.
    + apply String.eqb_neq in E.
      rewrite replace_from_miss; auto. now rewrite IH.
Qed.

Lemma fill_one_well_formed (k new : string) (segments : list segment) :
  free_of "{" new = true ->
  Forall well_formed segments ->
  Forall well_formed (map (fill_one k new) segments).
Proof.
  intros Hnew Hwf. induction Hwf as [|g rest Hg Hrest IH]; simpl; constructor; auto.
  destruct g as [text|n]; simpl; auto.
  destruct (String.eqb n k); simpl; auto.
Qed.

Variable usable : string * pyval -> bool.
Variable substitute : string -> string * pyval -> string.
Hypothesis substitute_usable : forall result k v,
  substitute result (k, v)
  = if usable (k, v) then replace (placeholder k) (py_str v) result else result.

Lemma resolve_step k v rest g :
  resolve_segment usable rest
    (if usable (k, v) then fill_one k (py_str v) g else g)
  = resolve_segment usable ((k, v) :: rest) g.
Proof.
  destruct g as [text|n]; cbn [resolve_segment binding].
  - destruct (usable (k, v)); reflexivity.
  - destruct (usable (k, v)); cbn [andb fill_one]; auto.
    destruct (String.eqb n k); reflexivity.
Qed.

(** The first loop of [render_template], on a template given by its
    segments. *)
Lemma substitute_all_spell (variables : combination) : forall segments,
  Forall well_formed segments ->
  brace_safe usable variables ->
  fold_left substitute variables (spell segments)
  = spell (map (resolve_segment usable variables) segments).
Proof.
  induction variables as [|[k v] rest IH]; intros segments Hwf Hsafe.
  - cbn [fold_left]. f_equal. induction segments as [|[t|n] l IHl]; simpl; auto.
    + f_equal. inversion Hwf; auto.
    + f_equal. inversion Hwf; auto.
  - cbn [fold_left]. rewrite substitute_usable.
    destruct (Hsafe k v (or_introl eq_refl)) as [Hk Hv].
    assert (Hrest : brace_safe usable rest).
    { intros k' v' Hin. apply Hsafe. now right. }
    destruct (usable (k, v)) eqn:U.
    + rewrite replace_spell by assumption.
      rewrite IH; auto using fill_one_well_formed.
      rewrite map_map. f_equal. apply map_ext. intros g.
      rewrite <- resolve_step, U. reflexivity.
    + rewrite IH; auto. f_equal. apply map_ext. intros g.
      rewrite <- resolve_step, U. reflexivity.
Qed.

Lemma resolve_well_formed (variables : combination) (segments : list segment) :
  brace_safe usable variables ->
  Forall well_formed segments ->
  Forall well_formed (map (resolve_segment usable variables) segments).
Proof.
  intros Hsafe Hwf.
  induction Hwf as [|g l Hg Hl IH]; simpl; constructor; auto.
  destruct g as [text|n]; simpl; auto.
  destruct (binding usable variables n) as [t|] eqn:B; simpl; auto.
  clear - Hsafe B. induction variables as [|[k v] rest IH]; simpl in B; [discriminate|].
  destruct (usable (k, v) && String.eqb n k) eqn:E.
  - inversion B; subst. apply andb_true_iff in E. destruct E as [U _].
    apply (Hsafe k v); [now left | exact U].
  - apply IH; auto. intros k' v' Hin. apply Hsafe. now right.
Qed.

End RenderFacts.

Section ScanFacts.
Import Py Core.

Lemma placeholders_from_skip (p s : string) :
  Re.placeholders_from (String.length p) (p ++ s) = Re.placeholders_from 0 s.
Proof. induction p as [|c p IH]; simpl; auto. Qed.

Lemma placeholder_at_other (a : ascii) (s : string) :
  Ascii.eqb a "{" = false -> Re.placeholder_at (String a s) = None.
Proof.
  intros H. unfold Re.placeholder_at. cbn [startswith].
  now rewrite Ascii.eqb_sym, H.
Qed.

(** Text without an opening brace holds no placeholder. *)
Lemma placeholders_from_free (t s : string) :
  free_of "{" t = true ->
  Re.placeholders_from 0 (t ++ s) = Re.placeholders_from 0 s.
Proof.
  induction t as [|a t IH]; intros Hf; [reflexivity|].
  cbn [free_of] in Hf. apply andb_true_iff in Hf. destruct Hf as [Ha Ht].
  apply negb_true_iff in Ha.
  change (String a t ++ s)%string with (String a (t ++ s)).
  cbn [Re.placeholders_from]. rewrite placeholder_at_other by exact Ha. auto.
Qed.

Lemma take_while_name (n rest : string) :
  free_of "}" n = true ->
  take_while Re.not_rbrace (n ++ "}}" ++ rest) = n
  /\ drop_while Re.not_rbrace (n ++ "}}" ++ rest) = ("}}" ++ rest)%string.
Proof.
  induction n as [|a n IH]; intros Hf.
  - split; reflexivity.
  - cbn [free_of] in Hf. apply andb_true_iff in Hf. destruct Hf as [Ha Hn].
    destruct (IH Hn) as [H1 H2].
    change (String a n ++ "}}" ++ rest)%string with (String a (n ++ "}}" ++ rest)).
    cbn [take_while drop_while]. unfold Re.not_rbrace at 1 3. rewrite Ha.
    split; [now rewrite H1 | exact H2].
Qed.

Lemma placeholder_at_hole (n rest : string) :
  n <> "" -> free_of "}" n = true ->
  Re.placeholder_at (placeholder n ++ rest) = Some (n, String.length n + 4).
Proof.
  intros Hne Hf. rewrite placeholder_unfold.
  change (String "{" (String "{" (n ++ "}}")) ++ rest)%string
    with (String "{" (String "{" ((n ++ "}}") ++ rest))).
  rewrite append_assoc. unfold Re.placeholder_at.
  change (startswith "{{" (String "{" (String "{" (n ++ "}}" ++ rest)))) with true.
  change (drop 2 (String "{" (String "{" (n ++ "}}" ++ rest))))
    with (n ++ "}}" ++ rest)%string.
  cbv iota.
  destruct (take_while_name n rest Hf) as [-> ->].
  apply String.eqb_neq in Hne. rewrite Hne. reflexivity.
Qed.

Lemma placeholders_from_hole (n rest : string) :
  n <> "" -> free_of "}" n = true ->
  Re.placeholders_from 0 (placeholder n ++ rest)
  = n :: Re.placeholders_from 0 rest.
Proof.
  intros Hne Hf.
  pose proof (placeholder_at_hole n rest Hne Hf) as Hat.
  rewrite placeholder_unfold in *.
  change (String "{" (String "{" (n ++ "}}")) ++ rest)%string
    with (String "{" (String "{" (n ++ "}}") ++ rest)) in *.
  cbn [Re.placeholders_from]. rewrite Hat. f_equal.
  replace (String.length n + 4 - 1) with (String.length (String "{" (n ++ "}}"))).
  - apply placeholders_from_skip.
  - simpl. rewrite length_append. simpl. lia.
Qed.

(** [findall] on a template given by its segments. *)
Lemma findall_spell (segments : list segment) :
  Forall well_formed segments ->
  Re.findall_placeholders (spell segments) = holes segments.
Proof.
  unfold Re.findall_placeholders.
  induction 1 as [|g rest Hg Hrest IH]; [reflexivity|].
  destruct g as [text|n]; cbn [spell segment_text holes].
  - now rewrite placeholders_from_free.
  - destruct Hg as [Hne [_ Hf]]. rewrite placeholders_from_hole by assumption.
    now rewrite IH.
Qed.

Lemma free_of_undefined (n : string) :
  free_of "{" n = true -> free_of "{" ("UNDEFINED_VARIABLE_" ++ n) = true.
Proof. intros H. rewrite free_of_append, H. reflexivity. Qed.

Lemma mark_segment_cons k names g :
  mark_segment names (fill_one k ("UNDEFINED_VARIABLE_" ++ k) g)
  = mark_segment (k :: names) g.
Proof.
  destruct g as [text|n]; cbn [mark_segment fill_one existsb]; auto.
  destruct (String.eqb n k) eqn:E; cbn [orb mark_segment]; auto.
  apply String.eqb_eq in E. now subst.
Qed.

(** The loop over the remaining names, on a template given by its
    segments. *)
Lemma mark_all_spell (names : list string) : forall segments,
  Forall well_formed segments ->
  Forall (fun n => free_of "{" n = true /\ free_of "}" n = true) names ->
  fold_left mark_undefined names (spell segments)
  = spell (map (mark_segment names) segments).
Proof.
  induction names as [|k names IH]; intros segments Hwf Hnames.
  - cbn [fold_left]. f_equal. induction segments as [|[t|n] l IHl]; simpl; auto.
    + f_equal. inversion Hwf; auto.
    + f_equal. inversion Hwf; auto.
  - inversion Hnames as [|? ? [Hk1 Hk2] Hrest]; subst.
    cbn [fold_left]. unfold mark_undefined at 2.
    rewrite replace_spell by assumption.
    rewrite IH; auto.
    + rewrite map_map. f_equal. apply map_ext. intros g. apply mark_segment_cons.
    + apply fill_one_well_formed; auto using free_of_undefined.
Qed.

Lemma holes_brace_free (segments : list segment) :
  Forall well_formed segments ->
  Forall (fun n => free_of "{" n = true /\ free_of "}" n = true) (holes segments).
Proof.
  induction 1 as [|g rest Hg Hrest IH]; simpl; [constructor|].
  destruct g as [text|n]; auto. constructor; auto. simpl in Hg. tauto.
Qed.

Lemma in_holes (segments : list segment) n :
  In (Hole n) segments -> existsb (String.eqb n) (holes segments) = true.
Proof.
  induction segments as [|g rest IH]; simpl; [tauto|].
  intros [->|Hin].
  - simpl. now rewrite String.eqb_refl.
  - destruct g as [text|m]; simpl; auto. rewrite IH by assumption. apply orb_true_r.
Qed.

(** The second half of [render_template]: every placeholder left becomes
    its marker. *)
Lemma mark_remaining_spell (segments : list segment) :
  Forall well_formed segments ->
  mark_remaining (spell segments)
  = spell (map (mark_segment (holes segments)) segments).
Proof.
  intros Hwf. unfold mark_remaining. rewrite findall_spell by assumption.
  apply mark_all_spell; auto using holes_brace_free.
Qed.

Lemma free_of_no_double (s : string) :
  free_of "{" s = true -> contains "{{" s = false.
Proof.
  induction s as [|a s IH]; intros Hf; [reflexivity|].
  cbn [free_of] in Hf. apply andb_true_iff in Hf. destruct Hf as [Ha Hs].
  apply negb_true_iff in Ha.
  cbn [contains startswith]. rewrite Ascii.eqb_sym, Ha. cbn [andb orb]. auto.
Qed.

End ScanFacts.

Section RenderTheorems.
Context {host : Host}.
Import Py Core.

Lemma binding_free usable (variables : combination) n t :
  brace_safe usable variables ->
  binding usable variables n = Some t -> free_of "{" t = true.
Proof.
  intros Hsafe. induction variables as [|[k v] rest IH]; simpl; [discriminate|].
  destruct (usable (k, v) && String.eqb n k) eqn:E.
  - intros B. inversion B; subst. apply andb_true_iff in E. destruct E as [U _].
    apply (Hsafe k v); [now left | exact U].
  - apply IH. intros k' v' Hin. apply Hsafe. now right.
Qed.

Lemma binding_absent usable (variables : combination) n :
  Dict.get n variables = None -> binding usable variables n = None.
Proof.
  induction variables as [|[k v] rest IH]; simpl; auto.
  destruct (String.eqb n k); [discriminate|]. rewrite andb_false_r. exact IH.
Qed.

Lemma binding_get usable (variables : combination) n v :
  NoDup (Dict.keys variables) ->
  Dict.get n variables = Some v ->
  binding usable variables n = if usable (n, v) then Some (py_str v) else None.
Proof.
  induction variables as [|[k w] rest IH]; simpl; [discriminate|].
  intros ND. inversion ND as [|? ? Hn ND']; subst.
  destruct (String.eqb n k) eqn:E.
  - apply String.eqb_eq in E. subst k. intros G. inversion G; subst.
    rewrite andb_true_r. destruct (usable (n, v)); auto.
    apply binding_absent. now apply get_none_notin.
  - rewrite andb_false_r. auto.
Qed.

Lemma filled_free usable (variables : combination) g :
  well_formed g -> brace_safe usable variables ->
  free_of "{" (filled usable variables g) = true.
Proof.
  intros Hg Hsafe. destruct g as [text|n]; simpl in *; auto.
  destruct (binding usable variables n) as [t|] eqn:B.
  - eapply binding_free; eauto.
  - apply free_of_undefined. tauto.
Qed.

Lemma rendering_free usable (variables : combination) segments :
  Forall well_formed segments -> brace_safe usable variables ->
  free_of "{" (rendering usable variables segments) = true.
Proof.
  intros Hwf Hsafe. unfold rendering.
  induction Hwf as [|g rest Hg Hrest IH]; [reflexivity|].
  cbn [map spell segment_text]. rewrite free_of_append, IH.
  now rewrite filled_free.
Qed.

(** Both renderers, over the test [usable] of the first loop. *)
Lemma render_spell (usable : string * pyval -> bool)
    (substitute : string -> string * pyval -> string)
    (variables : combination) (segments : list segment) :
  (forall result k v,
     substitute result (k, v)
     = if usable (k, v) then replace (placeholder k) (py_str v) result else result) ->
  Forall well_formed segments ->
  brace_safe usable variables ->
  mark_remaining (fold_left substitute variables (spell segments))
  = rendering usable variables segments.
Proof.
  intros Hsub Hwf Hsafe.
  rewrite (substitute_all_spell usable substitute Hsub) by assumption.
  rewrite mark_remaining_spell by (now apply resolve_well_formed).
  unfold rendering. rewrite map_map. f_equal. apply map_ext_in.
  intros g Hin. destruct g as [text|n]; cbn [resolve_segment filled mark_segment]; auto.
  destruct (binding usable variables n) as [t|] eqn:B; cbn [mark_segment]; auto.
  rewrite in_holes; auto.
  apply in_map_iff. exists (Hole n). split; auto.
  cbn [resolve_segment]. now rewrite B.
Qed.

(** C6: for a template made of text without an opening brace and of
    placeholders with non-empty brace-free names, and a combination whose
    keys have no closing brace and whose substituted texts have no opening
    brace, [render_template] returns the template with every placeholder
    replaced by the text of its variable when the combination has one that
    the loop substitutes, and by [UNDEFINED_VARIABLE_<name>] otherwise; the
    result holds no occurrence of [{{]. *)
Theorem render_template_fills_placeholders
    (segments : list segment) (variables : combination) :
  Forall well_formed segments ->
  (brace_safe app3_usable variables ->
     App3.render_template (spell segments) variables
     = rendering app3_usable variables segments
     /\ contains "{{" (App3.render_template (spell segments) variables) = false)
  /\ (brace_safe best_of_n_usable variables ->
     BestOfN.render_template (spell segments) variables
     = rendering best_of_n_usable variables segments
     /\ contains "{{" (BestOfN.render_template (spell segments) variables) = false)
  /\ (NoDup (Dict.keys variables) ->
      forall n v, Dict.get n variables = Some v ->
        (endswith "_path" n = false ->
           filled app3_usable variables (Hole n) = py_str v)
        /\ (endswith "_path" n = false -> is_dict v = false ->
           filled best_of_n_usable variables (Hole n) = py_str v))
  /\ (forall n, Dict.get n variables = None ->
        filled app3_usable variables (Hole n) = ("UNDEFINED_VARIABLE_" ++ n)%string
        /\ filled best_of_n_usable variables (Hole n)
           = ("UNDEFINED_VARIABLE_" ++ n)%string).
Proof.
  intros Hwf. split; [|split; [|split]].
  - intros Hsafe.
    assert (E : App3.render_template (spell segments) variables
                = rendering app3_usable variables segments).
    { unfold App3.render_template. apply render_spell; auto;
        intros result k v; reflexivity. }
    split; [exact E|]. rewrite E. apply free_of_no_double.
    now apply rendering_free.
  - intros Hsafe.
    assert (E : BestOfN.render_template (spell segments) variables
                = rendering best_of_n_usable variables segments).
    { unfold BestOfN.render_template. apply render_spell; auto;
        intros result k v; reflexivity. }
    split; [exact E|]. rewrite E. apply free_of_no_double.
    now apply rendering_free.
  - intros ND n v G. split.
    + intros Hp. cbn [filled]. rewrite (binding_get _ _ _ _ ND G).
      unfold app3_usable. cbn [fst]. now rewrite Hp.
    + intros Hp Hd. cbn [filled]. rewrite (binding_get _ _ _ _ ND G).
      unfold best_of_n_usable. cbn [fst snd]. now rewrite Hp, Hd.
  - intros n G. cbn [filled]. now rewrite !binding_absent.
Qed.

End RenderTheorems.

(** Counterexample to C6 as stated: the only placeholder of [{{a}}] is a
    plain key of the combination, and the rendered text is [{{]. *)
Lemma rendered_text_can_hold_braces :
  Re.findall_placeholders "{{a}}" = ["a"]
  /\ Dict.get "a" [("a", PStr (host := sample_host) "{{")] = Some (PStr "{{")
  /\ App3.render_template (host := sample_host) "{{a}}" [("a", PStr "{{")] = "{{"
  /\ BestOfN.render_template (host := sample_host) "{{a}}" [("a", PStr "{{")] = "{{"
  /\ Py.contains "{{"
       (App3.render_template (host := sample_host) "{{a}}" [("a", PStr "{{")])
     = true.
Proof. repeat split; reflexivity. Qed.

(** Witness of [render_template_fills_placeholders]: the template
    [{{topic}}-{{n}}] with [topic] bound and [n] absent. *)
Lemma render_template_fills_placeholders_witness :
  App3.render_template (host := sample_host) "{{topic}}-{{n}}"
    [("topic", PStr "water"); ("n_path", PStr "a")]
  = "water-UNDEFINED_VARIABLE_n"
  /\ Py.contains "{{"
       (App3.render_template (host := sample_host) "{{topic}}-{{n}}"
          [("topic", PStr "water"); ("n_path", PStr "a")]) = false.
Proof.
  apply (proj1 (render_template_fills_placeholders (host := sample_host)
                  [Hole "topic"; Plain "-"; Hole "n"]
                  [("topic", PStr "water"); ("n_path", PStr "a")]
                  ltac:(repeat constructor; simpl; intuition discriminate))).
  intros k v [H|[H|[]]]; inversion H; subst; split; reflexivity.
Defined.

(* ===================================================================== *)
(** * The special variable resolver *)
(* ===================================================================== *)

Section ResolverTheorems.
Context {host : Host}.
Import Py Core.

(** C7: with the tag [Output] and the outputs [x], [y], [z] the resolver
    builds one block per output, numbered from 1 in output order, and puts
    exactly that text in the place of every placeholder of the variable,
    whatever the template around it is. *)
Theorem results_example (initial_prompt : string) :
  BestOfN.xml_outputs "Output" 1 ["x"; "y"; "z"]
  = ("<Output1>" ++ LF ++ "x" ++ LF ++ "</Output1>" ++ LF
     ++ "<Output2>" ++ LF ++ "y" ++ LF ++ "</Output2>" ++ LF
     ++ "<Output3>" ++ LF ++ "z" ++ LF ++ "</Output3>" ++ LF)%string
  /\ BestOfN.process_special_variables "{{outputs}}"
       [("outputs", ResultsRef "Output")] initial_prompt ["x"; "y"; "z"]
     = ("<Output1>" ++ LF ++ "x" ++ LF ++ "</Output1>" ++ LF
        ++ "<Output2>" ++ LF ++ "y" ++ LF ++ "</Output2>" ++ LF
        ++ "<Output3>" ++ LF ++ "z" ++ LF ++ "</Output3>" ++ LF)%string
  /\ (forall (name : string) (segments : list segment),
        Forall well_formed segments -> free_of "}" name = true ->
        BestOfN.process_special_variables (spell segments)
          [(name, ResultsRef "Output")] initial_prompt ["x"; "y"; "z"]
        = spell (map (fill_one name
                        ("<Output1>" ++ LF ++ "x" ++ LF ++ "</Output1>" ++ LF
                         ++ "<Output2>" ++ LF ++ "y" ++ LF ++ "</Output2>" ++ LF
                         ++ "<Output3>" ++ LF ++ "z" ++ LF ++ "</Output3>" ++ LF))
                     segments))
  /\ BestOfN.parse_variable_definitions "outputs=$$results(Output)"
     = Some [("outputs", ResultsRef "Output")].
Proof.
  split; [reflexivity|]. split; [reflexivity|]. split; [|reflexivity].
  intros name segments Hwf Hname.
  unfold BestOfN.process_special_variables. cbn [fold_left BestOfN.resolve].
  now rewrite replace_spell.
Qed.

End ResolverTheorems.

(* ===================================================================== *)
(** * Further properties: text without placeholders *)
(* ===================================================================== *)

Section PlainTextTheorems.
Context {host : Host}.
Import Py Core.

Lemma replace_from_plain c old' new (t : string) :
  free_of c t = true -> replace_from (String c old') new 0 t = t.
Proof.
  intros Hf. rewrite <- (append_nil_r t) at 1.
  rewrite replace_from_free by exact Hf. simpl. apply append_nil_r.
Qed.

Lemma replace_placeholder_plain (k new t : string) :
  free_of "{" t = true -> replace (placeholder k) new t = t.
Proof.
  intros Hf. rewrite replace_placeholder, placeholder_unfold.
  now apply replace_from_plain.
Qed.

Lemma mark_remaining_plain (t : string) :
  free_of "{" t = true -> mark_remaining t = t.
Proof.
  intros Hf. unfold mark_remaining, Re.findall_placeholders.
  rewrite <- (append_nil_r t) at 1. rewrite placeholders_from_free by exact Hf.
  reflexivity.
Qed.

(** X1: a text without any opening brace goes through both renderers and
    through the special variable resolver unchanged, whatever the
    variables are. *)
Theorem plain_text_unchanged (template : string) :
  free_of "{" template = true ->
  (forall variables : combination,
     App3.render_template template variables = template)
  /\ (forall variables : combination,
     BestOfN.render_template template variables = template)
  /\ (forall (variables : Dict.t spec) initial_prompt outputs,
     BestOfN.process_special_variables template variables initial_prompt outputs
     = template).
Proof.
  intros Hf. split; [|split].
  - intros variables. unfold App3.render_template.
    assert (E : fold_left App3.substitute variables template = template).
    { induction variables as [|[k v] rest IH]; [reflexivity|].
      cbn [fold_left App3.substitute].
      destruct (negb (endswith "_path" k)); [|exact IH].
      now rewrite replace_placeholder_plain. }
    rewrite E. now apply mark_remaining_plain.
  - intros variables. unfold BestOfN.render_template.
    assert (E : fold_left BestOfN.substitute variables template = template).
    { induction variables as [|[k v] rest IH]; [reflexivity|].
      cbn [fold_left BestOfN.substitute].
      destruct (negb (endswith "_path" k) && negb (is_dict v)); [|exact IH].
      now rewrite replace_placeholder_plain. }
    rewrite E. now apply mark_remaining_plain.
  - intros variables initial_prompt outputs.
    unfold BestOfN.process_special_variables.
    induction variables as [|[k s] rest IH]; [reflexivity|].
    cbn [fold_left BestOfN.resolve].
    destruct s; try exact IH; now rewrite replace_placeholder_plain.
Qed.

(** X2: the resolver acts on [$$results] and [$$initial_prompt] entries
    only: with a mapping that holds neither, every template comes back as
    it was, placeholders included. *)
Theorem resolver_ignores_plain_variables
    (template : string) (variables : Dict.t spec) initial_prompt outputs :
  (forall k s, In (k, s) variables ->
     s <> InitialPromptRef /\ forall tag, s <> ResultsRef tag) ->
  BestOfN.process_special_variables template variables initial_prompt outputs
  = template.
Proof.
  unfold BestOfN.process_special_variables. revert template.
  induction variables as [|[k s] rest IH]; intros template Hn; [reflexivity|].
  cbn [fold_left BestOfN.resolve].
  destruct (Hn k s (or_introl eq_refl)) as [H1 H2].
  assert (Hrest : forall k' s', In (k', s') rest ->
            s' <> InitialPromptRef /\ forall tag, s' <> ResultsRef tag).
  { intros k' s' Hin. apply (Hn k' s'). now right. }
  destruct s; try (now apply IH).
  - exfalso. now apply (H2 var_name).
  - exfalso. now apply H1.
Qed.


End PlainTextTheorems.

(** Witness of [plain_text_unchanged]. *)
Lemma plain_text_unchanged_witness :
  App3.render_template (host := sample_host) "Say } hi"
    [("x", PStr "1")] = "Say } hi".
Proof.
  apply (proj1 (plain_text_unchanged (host := sample_host) "Say } hi" eq_refl)).
Defined.

(** Witness of [resolver_ignores_plain_variables]. *)
Lemma resolver_ignores_plain_variables_witness :
  BestOfN.process_special_variables (host := sample_host) "Rate {{tone}}"
    [("tone", Literal "kind")] "p" ["o"] = "Rate {{tone}}".
Proof.
  apply (resolver_ignores_plain_variables (host := sample_host)).
  intros k s [H|[]]. inversion H; subst. split; [discriminate|]. intros tag.
  discriminate.
Defined.

(* ===================================================================== *)
(** * Further properties: the expander *)
(* ===================================================================== *)

Section CompanionFacts.
Context {host : Host}.
Import Core.

Lemma append_cancel_r (a b c : string) : (a ++ c = b ++ c)%string -> a = b.
Proof.
  revert b. induction a as [|x a IH]; intros [|y b] H; auto.
  - apply (f_equal String.length) in H. simpl in H. rewrite length_append in H. lia.
  - apply (f_equal String.length) in H. simpl in H. rewrite length_append in H. lia.
  - simpl in H. inversion H; subst. f_equal. now apply IH.
Qed.

Lemma append_not_self (a c : string) : c <> "" -> a <> (a ++ c)%string.
Proof.
  intros Hc H. apply (f_equal String.length) in H. rewrite length_append in H.
  destruct c; [congruence|]. simpl in H. lia.
Qed.

Lemma extend_shape var_name d combo vals : forall i l,
  extend var_name d combo i vals = Some l ->
  forall c, In c l ->
    exists j v p,
      nth_error vals j = Some v /\ nth_error (paths d) (i + j) = Some p
      /\ c = Dict.set (var_name ++ "_path") p (Dict.set var_name v combo).
Proof.
  induction vals as [|value rest IH]; simpl; intros i l H c Hc.
  - inversion H; subst. destruct Hc.
  - destruct (nth_error (paths d) i) as [p|] eqn:Hp; [|discriminate].
    destruct (extend var_name d combo (S i) rest) as [more|] eqn:E; [|discriminate].
    inversion H; subst. destruct Hc as [<-|Hc].
    + exists 0, value, p. rewrite Nat.add_0_r. auto.
    + destruct (IH (S i) more E c Hc) as [j [v [q [H1 [H2 H3]]]]].
      exists (S j), v, q. rewrite <- Nat.add_succ_comm. auto.
Qed.

Lemma extend_all_shape var_name d combinations : forall l,
  extend_all var_name d combinations = Some l ->
  forall c, In c l ->
    exists combo j v p,
      In combo combinations
      /\ nth_error (values d) j = Some v /\ nth_error (paths d) j = Some p
      /\ c = Dict.set (var_name ++ "_path") p (Dict.set var_name v combo).
Proof.
  induction combinations as [|combo rest IH]; simpl; intros l H c Hc.
  - inversion H; subst. destruct Hc.
  - destruct (extend var_name d combo 0 (values d)) as [new|] eqn:E; [|discriminate].
    destruct (extend_all var_name d rest) as [more|] eqn:E'; [|discriminate].
    inversion H; subst. apply in_app_or in Hc. destruct Hc as [Hc|Hc].
    + destruct (extend_shape _ _ _ _ _ _ E c Hc) as [j [v [p [H1 [H2 H3]]]]].
      exists combo, j, v, p. simpl in H2. auto.
    + destruct (IH more eq_refl c Hc) as [combo' [j [v [p [H0 H1]]]]].
      exists combo', j, v, p. tauto.
Qed.

Lemma paired_kept x d y v p combo :
  apart x y -> paired x d combo ->
  paired x d (Dict.set (y ++ "_path") p (Dict.set y v combo)).
Proof.
  intros [H1 [H2 [H3 H4]]] [i [v0 [p0 [Hv [Hp [Gx Gp]]]]]].
  exists i, v0, p0. repeat split; auto.
  - rewrite !get_set_other; auto.
  - rewrite !get_set_other; auto.
Qed.

Lemma cross_keeps x d iterative_vars : forall combinations l,
  cross iterative_vars combinations = Some l ->
  (forall y, In y (Dict.keys iterative_vars) -> apart x y) ->
  (forall c, In c combinations -> paired x d c) ->
  forall c, In c l -> paired x d c.
Proof.
  induction iterative_vars as [|[y d'] rest IH]; simpl; intros combinations l H Ha Hq.
  - inversion H; subst. exact Hq.
  - destruct (extend_all y d' combinations) as [new|] eqn:E; [|discriminate].
    apply (IH new l H); [intros z Hz; apply Ha; now right|].
    intros c Hc.
    destruct (extend_all_shape _ _ _ _ E c Hc) as [combo [j [v [p [Hin [_ [_ ->]]]]]]].
    apply paired_kept; auto.
Qed.

Lemma cross_pairs x d iterative_vars : forall combinations l,
  cross iterative_vars combinations = Some l ->
  NoDup (Dict.keys iterative_vars) ->
  In (x, d) iterative_vars ->
  (forall y, In y (Dict.keys iterative_vars) -> y <> x -> apart x y) ->
  forall c, In c l -> paired x d c.
Proof.
  induction iterative_vars as [|[y d'] rest IH]; simpl;
    intros combinations l H ND Hin Ha; [tauto|].
  inversion ND as [|? ? Hn ND']; subst.
  destruct (extend_all y d' combinations) as [new|] eqn:E; [|discriminate].
  destruct Hin as [Heq|Hin].
  - inversion Heq; subst.
    apply (cross_keeps x d rest new l H).
    + intros z Hz. apply Ha; auto. intros ->. contradiction.
    + intros c Hc.
      destruct (extend_all_shape _ _ _ _ E c Hc) as [combo [j [v [p [_ [Hv [Hp ->]]]]]]].
      exists j, v, p. repeat split; auto.
      * rewrite get_set_other by (apply append_not_self; discriminate).
        apply get_set_same.
      * apply get_set_same.
  - apply (IH new l H ND' Hin). intros z Hz. apply Ha. now right.
Qed.

Variable classify : spec -> option slot.
Hypothesis classify_aligned :
  forall s d, classify s = Some (Iterative d) -> aligned d.

(** Every combination pairs an iterating variable with its companion, when
    no other variable bears one of the two names. *)
Lemma expand_pairs (variables : Dict.t spec) x d :
  NoDup (Dict.keys variables) ->
  resolvable classify variables ->
  In (x, d) (iterating_of classify variables) ->
  ~ In (x ++ "_path")%string (Dict.keys variables) ->
  (forall y, In y (Dict.keys variables) -> (y ++ "_path")%string <> x) ->
  exists combinations,
    expand classify variables = Some combinations
    /\ forall combo, In combo combinations -> paired x d combo.
Proof.
  intros ND Hr Hin Hpath Hcomp.
  unfold expand.
  rewrite (collect_partition classify variables [] [] ND); [|simpl; tauto|assumption].
  simpl.
  destruct (cross_ok (iterating_of classify variables) [[]]
              (aligned_iterating_of classify classify_aligned variables))
    as [l [Hl _]].
  rewrite Hl. eexists. split; [reflexivity|].
  intros combo Hc. apply in_map_iff in Hc. destruct Hc as [c [<- Hc]].
  assert (NDi : NoDup (Dict.keys (iterating_of classify variables))).
  { clear - ND. induction variables as [|[n s] rest IH]; simpl; [constructor|].
    inversion ND as [|? ? Hn ND']; subst. unfold iterating_of in *. simpl.
    destruct (classify s) as [[d|v|]|]; simpl; auto.
    constructor; auto. intros Hk. apply Hn.
    now apply (keys_iterating_of classify). }
  assert (Hq : paired x d c).
  { apply (cross_pairs x d _ [[]] l Hl NDi Hin); auto.
    intros y Hy Hne. apply (keys_iterating_of classify) in Hy.
    repeat split; auto.
    - intros ->. contradiction.
    - intros E. apply append_cancel_r in E. contradiction. }
  destruct Hq as [i [v [p [Hv [Hp [Gx Gp]]]]]].
  exists i, v, p. repeat split; auto.
  - rewrite add_fixed_notin; auto. intros Hk.
    apply in_map_iff in Hk. destruct Hk as [[k w] [Hkx Hkw]]. simpl in Hkx. subst k.
    unfold fixed_of in Hkw. apply in_flat_map in Hkw.
    destruct Hkw as [[n s] [Hns Hw]]. simpl in Hw.
    destruct (classify s) as [[d'|w'|]|] eqn:Ec; simpl in Hw; try tauto.
    destruct Hw as [Hw|[]]. inversion Hw; subst.
    apply in_iterating_of in Hin. destruct Hin as [s' [Hs' Hc']].
    assert (s = s') by (eapply nodup_keys_unique; eauto). subst. congruence.
  - rewrite add_fixed_notin; auto. intros Hk. apply Hpath.
    now apply (keys_fixed_of classify).
Qed.

End CompanionFacts.

Section ExpanderExtras.
Context {host : Host}.
Import Core.

Lemma read_files_readable fs (file_paths : list string) :
  snd (read_files fs file_paths) = filter (readable fs) file_paths
  /\ map (read_text fs) (snd (read_files fs file_paths))
     = map Some (fst (read_files fs file_paths)).
Proof.
  induction file_paths as [|path rest [IH1 IH2]]; [split; reflexivity|].
  cbn [read_files].
  destruct (read_files fs rest) as [contents display]. cbn [fst snd] in IH1, IH2.
  destruct (read_text fs path) as [content|] eqn:E;
    cbn [fst snd filter map]; unfold readable at 1; rewrite E.
  - split; now f_equal.
  - split; assumption.
Qed.

(** X4: the reading loop of a [$$dir] variable keeps exactly the files that
    can be read, in the order they were found, each content beside the path
    it was read from. *)
Theorem read_files_keeps_readable fs (file_paths : list string) :
  snd (read_files fs file_paths) = filter (readable fs) file_paths
  /\ map (read_text fs) (snd (read_files fs file_paths))
     = map Some (fst (read_files fs file_paths)).
Proof. exact (read_files_readable fs file_paths). Qed.

Lemma read_files_nth fs file_paths i content file :
  nth_error (fst (read_files fs file_paths)) i = Some content ->
  nth_error (snd (read_files fs file_paths)) i = Some file ->
  read_text fs file = Some content /\ In file file_paths.
Proof.
  intros Hc Hf.
  destruct (read_files_readable fs file_paths) as [H1 H2].
  split.
  - apply (map_nth_error (read_text fs)) in Hf. rewrite H2 in Hf.
    apply (map_nth_error (@Some string)) in Hc. congruence.
  - apply nth_error_In in Hf. rewrite H1 in Hf. apply filter_In in Hf. tauto.
Qed.

(** X5: a [$$file] variable is fixed: every combination of either expander
    holds the content of the file under its name, or the text
    [ERROR: Could not read file <path>] when the file cannot be read. *)
Theorem file_variable_fixed fs (variables : Dict.t spec) x path :
  NoDup (Dict.keys variables) ->
  listable fs variables ->
  In (x, FileRef path) variables ->
  (exists combinations,
     App3.expand_variables fs variables = Some combinations
     /\ forall combo, In combo combinations ->
          Dict.get x combo
          = Some (PStr match read_text fs path with
                       | Some content => content
                       | None => "ERROR: Could not read file " ++ path
                       end))
  /\ (exists combinations,
     BestOfN.expand_variables fs variables = Some combinations
     /\ forall combo, In combo combinations ->
          Dict.get x combo
          = Some (PStr match read_text fs path with
                       | Some content => content
                       | None => "ERROR: Could not read file " ++ path
                       end)).
Proof.
  intros ND Hl Hin. split.
  - destruct (expand_spec (App3.classify fs) (app3_classify_aligned fs) variables ND
                (app3_resolvable fs variables Hl)) as [l [He [_ [Hfix _]]]].
    exists l. split; [exact He|]. intros combo Hc.
    eapply Hfix; eauto. eapply in_fixed_of; eauto.
    simpl. unfold resolve_file. now destruct (read_text fs path).
  - destruct (expand_spec (BestOfN.classify fs) (best_of_n_classify_aligned fs)
                variables ND (best_of_n_resolvable fs variables Hl))
      as [l [He [_ [Hfix _]]]].
    exists l. split; [exact He|]. intros combo Hc.
    eapply Hfix; eauto. eapply in_fixed_of; eauto.
    simpl. unfold resolve_file. now destruct (read_text fs path).
Qed.

Lemma in_iterating_of_intro classify (variables : Dict.t spec) k s d :
  In (k, s) variables -> classify s = Some (Iterative d) ->
  In (k, d) (iterating_of classify variables).
Proof.
  intros Hin Hc. unfold iterating_of. apply in_flat_map.
  exists (k, s). split; auto. simpl. rewrite Hc. now left.
Qed.

(** X6: when a [$$dir] variable has a readable file and no other variable
    bears its name with or without [_path], every combination holds under
    the variable's name the content of one of the files found and under the
    companion name the path that content was read from. *)
Theorem dir_variable_pairs_path_and_content
    fs (variables : Dict.t spec) x path recursive file_paths :
  NoDup (Dict.keys variables) ->
  listable fs variables ->
  In (x, DirRef path recursive) variables ->
  ~ In (x ++ "_path")%string (Dict.keys variables) ->
  (forall y, In y (Dict.keys variables) -> (y ++ "_path")%string <> x) ->
  dir_file_paths fs path recursive = Some file_paths ->
  fst (read_files fs file_paths) <> [] ->
  (exists combinations,
     App3.expand_variables fs variables = Some combinations
     /\ forall combo, In combo combinations ->
          exists file content,
            In file file_paths /\ read_text fs file = Some content
            /\ Dict.get x combo = Some (PStr content)
            /\ Dict.get (x ++ "_path")%string combo = Some (PStr file))
  /\ (exists combinations,
     BestOfN.expand_variables fs variables = Some combinations
     /\ forall combo, In combo combinations ->
          exists file content,
            In file file_paths /\ read_text fs file = Some content
            /\ Dict.get x combo = Some (PStr content)
            /\ Dict.get (x ++ "_path")%string combo = Some (PStr file)).
Proof.
  intros ND Hl Hin Hpath Hcomp Hp Hne.
  assert (Hr : resolve_dir fs path recursive
               = Some (Iterative
                         {| values := map PStr (fst (read_files fs file_paths));
                            paths := map PStr (snd (read_files fs file_paths)) |})).
  { unfold resolve_dir. rewrite Hp.
    destruct (read_files fs file_paths) as [[|c cs] display]; simpl in *; congruence. }
  assert (Hshape : forall combo,
            paired x {| values := map PStr (fst (read_files fs file_paths));
                        paths := map PStr (snd (read_files fs file_paths)) |} combo ->
            exists file content,
              In file file_paths /\ read_text fs file = Some content
              /\ Dict.get x combo = Some (PStr content)
              /\ Dict.get (x ++ "_path")%string combo = Some (PStr file)).
  { intros combo [i [v [p [Hv [Hq [Gx Gp]]]]]]. simpl in Hv, Hq.
    rewrite nth_error_map in Hv, Hq.
    destruct (nth_error (fst (read_files fs file_paths)) i) as [content|] eqn:Ec;
      [|discriminate].
    destruct (nth_error (snd (read_files fs file_paths)) i) as [file|] eqn:Ef;
      [|discriminate].
    simpl in Hv, Hq. inversion Hv; inversion Hq; subst.
    destruct (read_files_nth fs file_paths i content file Ec Ef) as [H1 H2].
    exists file, content. auto. }
  split.
  - destruct (expand_pairs (App3.classify fs) (app3_classify_aligned fs)
                variables x _ ND (app3_resolvable fs variables Hl)
                (in_iterating_of_intro _ _ _ _ _ Hin Hr) Hpath Hcomp)
      as [l [He Hq]].
    exists l. split; [exact He|]. intros combo Hc. apply Hshape. now apply Hq.
  - destruct (expand_pairs (BestOfN.classify fs) (best_of_n_classify_aligned fs)
                variables x _ ND (best_of_n_resolvable fs variables Hl)
                (in_iterating_of_intro _ _ _ _ _ Hin Hr) Hpath Hcomp)
      as [l [He Hq]].
    exists l. split; [exact He|]. intros combo Hc. apply Hshape. now apply Hq.
Qed.

(** X7: when no other variable bears the name of a [$$list] variable with
    or without [_path], every combination holds one element of the list
    under the variable's name and the same element under the companion
    name. *)
Theorem list_variable_companion_is_element
    fs (variables : Dict.t spec) x elements :
  NoDup (Dict.keys variables) ->
  listable fs variables ->
  In (x, ListRef elements) variables ->
  ~ In (x ++ "_path")%string (Dict.keys variables) ->
  (forall y, In y (Dict.keys variables) -> (y ++ "_path")%string <> x) ->
  (exists combinations,
     App3.expand_variables fs variables = Some combinations
     /\ forall combo, In combo combinations ->
          exists element,
            In element elements
            /\ Dict.get x combo = Some element
            /\ Dict.get (x ++ "_path")%string combo = Some element)
  /\ (exists combinations,
     BestOfN.expand_variables fs variables = Some combinations
     /\ forall combo, In combo combinations ->
          exists element,
            In element elements
            /\ Dict.get x combo = Some element
            /\ Dict.get (x ++ "_path")%string combo = Some element).
Proof.
  intros ND Hl Hin Hpath Hcomp.
  assert (Hshape : forall combo,
            paired x {| values := elements; paths := elements |} combo ->
            exists element,
              In element elements
              /\ Dict.get x combo = Some element
              /\ Dict.get (x ++ "_path")%string combo = Some element).
  { intros combo [i [v [p [Hv [Hq [Gx Gp]]]]]]. simpl in Hv, Hq.
    assert (v = p) by congruence. subst p.
    exists v. split; [eapply nth_error_In; eauto | auto]. }
  split.
  - destruct (expand_pairs (App3.classify fs) (app3_classify_aligned fs)
                variables x _ ND (app3_resolvable fs variables Hl)
                (in_iterating_of_intro (App3.classify fs) _ _ _ _ Hin eq_refl)
                Hpath Hcomp) as [l [He Hq]].
    exists l. split; [exact He|]. intros combo Hc. apply Hshape. now apply Hq.
  - destruct (expand_pairs (BestOfN.classify fs) (best_of_n_classify_aligned fs)
                variables x _ ND (best_of_n_resolvable fs variables Hl)
                (in_iterating_of_intro (BestOfN.classify fs) _ _ _ _ Hin eq_refl)
                Hpath Hcomp) as [l [He Hq]].
    exists l. split; [exact He|]. intros combo Hc. apply Hshape. now apply Hq.
Qed.

End ExpanderExtras.

(** Witness of [file_variable_fixed]: a file that cannot be read. *)
Lemma file_variable_fixed_witness :
  exists combinations,
    App3.expand_variables (host := sample_host) sample_fs
      [("notes", FileRef "n.txt"); ("k", ListRef [PStr "a"; PStr "b"])]
    = Some combinations
    /\ forall combo, In combo combinations ->
         Dict.get "notes" combo = Some (PStr "ERROR: Could not read file n.txt").
Proof.
  apply (proj1 (file_variable_fixed (host := sample_host) sample_fs
                  [("notes", FileRef "n.txt"); ("k", ListRef [PStr "a"; PStr "b"])]
                  "notes" "n.txt"
                  ltac:(repeat constructor; simpl; intuition discriminate)
                  ltac:(intros x path recursive [H|[H|[]]]; discriminate)
                  ltac:(now left))).
Defined.

(** Witness of [dir_variable_pairs_path_and_content]: the directory of
    [one_file_fs]. *)
Lemma dir_variable_pairs_path_and_content_witness :
  exists combinations,
    App3.expand_variables (host := sample_host) one_file_fs
      [("doc", DirRef "./d" false)] = Some combinations
    /\ forall combo, In combo combinations ->
         exists file content,
           In file ["./d/a.txt"; "./d/b.bin"]
           /\ read_text one_file_fs file = Some content
           /\ Dict.get "doc" combo = Some (PStr content)
           /\ Dict.get "doc_path" combo = Some (PStr file).
Proof.
  refine (proj1 (dir_variable_pairs_path_and_content (host := sample_host)
                   one_file_fs [("doc", DirRef "./d" false)] "doc" "./d" false
                   ["./d/a.txt"; "./d/b.bin"] _ _ _ _ _ _ _)).
  - repeat constructor; simpl; intuition discriminate.
  - intros x path recursive [H|[]]. inversion H; subst. discriminate.
  - now left.
  - simpl. intuition discriminate.
  - intros y [<-|[]]. discriminate.
  - reflexivity.
  - discriminate.
Defined.

(** Witness of [list_variable_companion_is_element]. *)
Lemma list_variable_companion_is_element_witness :
  exists combinations,
    App3.expand_variables (host := sample_host) sample_fs
      [("n", ListRef [PStr "a"; PStr "b"])] = Some combinations
    /\ forall combo, In combo combinations ->
         exists element,
           In element [PStr "a"; PStr "b"]
           /\ Dict.get "n" combo = Some element
           /\ Dict.get "n_path" combo = Some element.
Proof.
  refine (proj1 (list_variable_companion_is_element (host := sample_host)
                   sample_fs [("n", ListRef [PStr "a"; PStr "b"])] "n"
                   [PStr "a"; PStr "b"] _ _ _ _ _)).
  - repeat constructor; simpl; intuition discriminate.
  - intros x path recursive [H|[]]. discriminate.
  - now left.
  - simpl. intuition discriminate.
  - intros y [<-|[]]. discriminate.
Defined.

(* ===================================================================== *)
(** * Further properties: the parser *)
(* ===================================================================== *)

Section CharFacts.
Import Py.

Lemma name_char_not_space (c : ascii) : Re.name_char c = true -> isspace c = false.
Proof.
  destruct c as [b0 b1 b2 b3 b4 b5 b6 b7].
  destruct b0, b1, b2, b3, b4, b5, b6, b7;
    try reflexivity; intros H; vm_compute in H; discriminate.
Qed.

Lemma name_char_plain (c : ascii) :
  Re.name_char c = true ->
  Ascii.eqb c "{" = false /\ Ascii.eqb c "}" = false /\ Ascii.eqb c "=" = false.
Proof.
  destruct c as [b0 b1 b2 b3 b4 b5 b6 b7].
  destruct b0, b1, b2, b3, b4, b5, b6, b7;
    try (repeat split; reflexivity); intros H; vm_compute in H; discriminate.
Qed.

Lemma name_start_char (c : ascii) : Re.name_start c = true -> Re.name_char c = true.
Proof. unfold Re.name_char. now intros ->. Qed.

Lemma all_chars_take_while p (s : string) : all_chars p (take_while p s) = true.
Proof.
  induction s as [|c s IH]; simpl; auto.
  destruct (p c) eqn:E; simpl; auto. now rewrite E.
Qed.

Lemma all_chars_weaken (p q : ascii -> bool) (s : string) :
  (forall c, p c = true -> q c = true) ->
  all_chars p s = true -> all_chars q s = true.
Proof.
  intros Hpq. induction s as [|c s IH]; simpl; auto.
  intros H. apply andb_true_iff in H. destruct H as [Hc Hs].
  now rewrite (Hpq c Hc), IH.
Qed.

Lemma free_of_all_chars c (s : string) :
  free_of c s = all_chars (fun a => negb (Ascii.eqb a c)) s.
Proof. induction s as [|a s IH]; simpl; congruence. Qed.

Lemma lstrip_head c (s : string) :
  isspace c = false -> lstrip (String c s) = String c s.
Proof. intros H. simpl. now rewrite H. Qed.

Lemma rstrip_no_space (s : string) :
  all_chars (fun c => negb (isspace c)) s = true -> rstrip s = s.
Proof.
  induction s as [|c s IH]; simpl; auto.
  intros H. apply andb_true_iff in H. destruct H as [Hc Hs].
  rewrite IH by assumption. apply negb_true_iff in Hc. rewrite Hc.
  now destruct s.
Qed.

(** A name that the pattern accepts is not changed by [strip]. *)
Lemma strip_identifier (name : string) : identifier name = true -> strip name = name.
Proof.
  destruct name as [|c rest]; [discriminate|]. simpl.
  intros H. apply andb_true_iff in H. destruct H as [Hc Hr].
  unfold strip. rewrite lstrip_head by (now apply name_char_not_space, name_start_char).
  apply rstrip_no_space. simpl.
  rewrite (name_char_not_space c) by (now apply name_start_char). simpl.
  apply (all_chars_weaken Re.name_char); auto.
  intros a Ha. now rewrite (name_char_not_space a Ha).
Qed.

Lemma identifier_brace_free (name : string) :
  identifier name = true ->
  name <> "" /\ free_of "{" name = true /\ free_of "}" name = true.
Proof.
  intros H. split; [now destruct name|].
  assert (Ha : all_chars Re.name_char name = true).
  { destruct name as [|c rest]; [discriminate|]. simpl in *.
    apply andb_true_iff in H. destruct H as [Hc Hr].
    now rewrite (name_start_char c Hc). }
  rewrite !free_of_all_chars. split.
  - apply (all_chars_weaken Re.name_char); auto.
    intros a Hn. destruct (name_char_plain a Hn) as [-> _]. reflexivity.
  - apply (all_chars_weaken Re.name_char); auto.
    intros a Hn. destruct (name_char_plain a Hn) as [_ [-> _]]. reflexivity.
Qed.

Lemma all_chars_append p (a b : string) :
  all_chars p (a ++ b) = all_chars p a && all_chars p b.
Proof. induction a as [|c a IH]; simpl; auto. now rewrite IH, andb_assoc. Qed.

Lemma identifier_path (name : string) :
  identifier name = true -> identifier (name ++ "_path") = true.
Proof.
  destruct name as [|c rest]; [discriminate|]. simpl.
  intros H. apply andb_true_iff in H. destruct H as [Hc Hr].
  now rewrite Hc, all_chars_append, Hr.
Qed.

End CharFacts.

Section MatchFacts.
Import Py.

Lemma free_of_drop_while c p (s : string) :
  free_of c s = true -> free_of c (drop_while p s) = true.
Proof.
  induction s as [|a s IH]; simpl; auto.
  intros H. destruct (p a); auto.
  apply andb_true_iff in H. tauto.
Qed.

Lemma free_of_last_char c (s : string) :
  free_of c s = true -> free_of c (Re.last_char s) = true.
Proof.
  induction s as [|a s IH]; simpl; auto.
  intros H. apply andb_true_iff in H. destruct H as [Ha Hs].
  destruct s; [simpl; now rewrite Ha | auto].
Qed.

Lemma free_of_rstrip c (s : string) :
  free_of c s = true -> free_of c (rstrip s) = true.
Proof.
  induction s as [|a s IH]; simpl; auto.
  intros H. apply andb_true_iff in H. destruct H as [Ha Hs].
  specialize (IH Hs). destruct (rstrip s) eqn:E.
  - destruct (isspace a); simpl; auto. now rewrite Ha.
  - change (negb (Ascii.eqb a c) && free_of c (String a0 s0) = true).
    now rewrite Ha, IH.
Qed.

Lemma free_of_strip c (s : string) :
  free_of c s = true -> free_of c (strip s) = true.
Proof.
  intros H. unfold strip. apply free_of_rstrip.
  induction s as [|a s IH]; simpl; auto.
  destruct (isspace a); auto. simpl in H. apply andb_true_iff in H. tauto.
Qed.

Lemma free_of_drop c n : forall s : string,
  free_of c s = true -> free_of c (drop n s) = true.
Proof.
  induction n as [|n IH]; intros [|a s] H; simpl; auto.
  simpl in H. apply andb_true_iff in H. apply IH. tauto.
Qed.

Lemma free_of_removelast c (s : string) :
  free_of c s = true -> free_of c (removelast s) = true.
Proof.
  induction s as [|a s IH]; simpl; auto.
  intros H. apply andb_true_iff in H. destruct H as [Ha Hs].
  destruct s as [|b s]; auto.
  change (negb (Ascii.eqb a c) && free_of c (removelast (String b s)) = true).
  now rewrite Ha, IH.
Qed.

Lemma free_of_slice c n (s : string) :
  free_of c s = true -> free_of c (slice_to_last n s) = true.
Proof. intros H. unfold slice_to_last. now apply free_of_drop, free_of_removelast. Qed.

Lemma free_of_not_contained c (s : string) :
  free_of c s = true -> contains (String c EmptyString) s = false.
Proof.
  induction s as [|a s IH]; simpl; auto.
  intros H. apply andb_true_iff in H. destruct H as [Ha Hs].
  apply negb_true_iff in Ha. rewrite Ascii.eqb_sym, Ha. simpl. auto.
Qed.

Lemma free_of_take_while_not_comma (s : string) :
  free_of "," (take_while Re.not_comma s) = true.
Proof.
  rewrite free_of_all_chars. apply (all_chars_take_while Re.not_comma).
Qed.

Lemma group_two_free (body : string) :
  free_of "," body = true ->
  free_of ","
    match drop_while isspace body with
    | EmptyString => Re.last_char body
    | String a v => String a v
    end = true.
Proof.
  intros H. destruct (drop_while isspace body) eqn:Ed.
  - now apply free_of_last_char.
  - rewrite <- Ed. now apply free_of_drop_while.
Qed.

(** What one attempt of the pattern yields: a name the pattern accepts and a
    value without a comma. *)
Lemma definition_at_shape (s name value : string) (len : nat) :
  Re.definition_at s = Some (name, value, len) ->
  identifier name = true /\ free_of "," value = true.
Proof.
  unfold Re.definition_at. destruct s as [|c s1]; [discriminate|].
  destruct (Re.name_start c) eqn:Hc; [|discriminate].
  destruct (drop_while isspace (drop_while Re.name_char s1)) as [|e after_eq];
    [discriminate|].
  destruct e as [b0 b1 b2 b3 b4 b5 b6 b7].
  destruct b0, b1, b2, b3, b4, b5, b6, b7; try discriminate.
  pose proof (free_of_take_while_not_comma after_eq) as Hbody.
  cbv zeta.
  destruct (take_while Re.not_comma after_eq) as [|b body] eqn:Eb; [discriminate|].
  intros H. injection H as Hn Hv Hl. subst name value. split.
  - cbn [identifier]. rewrite Hc. apply all_chars_take_while.
  - exact (group_two_free (String b body) Hbody).
Qed.

Lemma definitions_from_shape (s : string) : forall skip,
  Forall (fun m => identifier (fst m) = true /\ free_of "," (snd m) = true)
         (Re.definitions_from skip s).
Proof.
  induction s as [|c s IH]; intros skip; [constructor|].
  cbn [Re.definitions_from]. destruct skip as [|k]; [|apply IH].
  destruct (Re.definition_at (String c s)) as [[[name value] len]|] eqn:E; [|apply IH].
  constructor; [|apply IH]. simpl. eapply definition_at_shape; eauto.
Qed.

End MatchFacts.

Section ParserExtras.
Context {host : Host}.
Import Py Core.

Lemma in_set_inv {V : Type} (k k' : string) (v v' : V) (d : list (string * V)) :
  In (k', v') (Dict.set k v d) -> (k' = k /\ v' = v) \/ In (k', v') d.
Proof.
  induction d as [|[k0 v0] d IH]; simpl.
  - intros [H|[]]. inversion H. auto.
  - destruct (String.eqb k k0) eqn:E; simpl.
    + apply String.eqb_eq in E. subst k0. intros [H|H]; auto.
      inversion H. auto.
    + intros [H|H]; auto. destruct (IH H); auto.
Qed.

Lemma parse_dir_flat (var_value : string) :
  free_of "," var_value = true ->
  exists path, parse_dir var_value = Some (DirRef path false).
Proof.
  intros H. unfold parse_dir.
  rewrite (free_of_not_contained "," (strip (slice_to_last 6 var_value))).
  - eauto.
  - now apply free_of_strip, free_of_slice.
Qed.

Lemma parse_list_kind (var_value : string) (l : spec) :
  parse_list var_value = Some l -> exists elements, l = ListRef elements.
Proof.
  unfold parse_list.
  destruct (json_loads (strip (slice_to_last 7 var_value)));
    intros H; inversion H; eauto.
Qed.

Lemma parse_literal_kind (var_value : string) :
  exists value, parse_literal var_value = Literal value.
Proof. unfold parse_literal. destruct (_ || _); eauto. Qed.

(** The case analysis of a loop body, on a hypothesis that it returned. *)
Ltac bind_cases H :=
  unfold App3.bind, BestOfN.bind in H; cbv zeta in H;
  repeat match type of H with
         | context [if ?c then _ else _] => destruct c eqn:?
         | context [match parse_dir ?v with _ => _ end] => destruct (parse_dir v) eqn:?
         | context [match parse_list ?v with _ => _ end] => destruct (parse_list v) eqn:?
         end;
  try discriminate; injection H as H; subst.

(** An invariant of the loop of the parser. *)
Lemma bind_all_invariant
    (bind : Dict.t spec -> string * string -> option (Dict.t spec))
    (P : Dict.t spec -> Prop) (matches : list (string * string)) :
  (forall variables m variables',
     In m matches -> bind variables m = Some variables' ->
     P variables -> P variables') ->
  forall variables result,
    bind_all bind matches variables = Some result -> P variables -> P result.
Proof.
  induction matches as [|m rest IH]; simpl; intros Hstep variables result H HP.
  - inversion H; subst. exact HP.
  - destruct (bind variables m) as [variables'|] eqn:E; [|discriminate].
    apply (IH (fun vs m' vs' Hin => Hstep vs m' vs' (or_intror Hin)) variables' result H).
    eapply Hstep; [now left | exact E | exact HP].
Qed.

Lemma app3_bind_flat variables m variables' :
  free_of "," (snd m) = true ->
  App3.bind variables m = Some variables' -> flat variables -> flat variables'.
Proof.
  intros Hf H Hflat k path recursive Hin.
  destruct (parse_dir_flat (strip (snd m)) (free_of_strip _ _ Hf)) as [p Hp].
  destruct (parse_literal_kind (strip (snd m))) as [lit Hlit].
  bind_cases H; try (now apply (Hflat k path recursive));
    apply in_set_inv in Hin; destruct Hin as [[_ Hin]|Hin];
    try (now apply (Hflat k path recursive)); try congruence.
  all: match goal with
       | Hl : parse_list _ = Some _ |- _ =>
           apply parse_list_kind in Hl; destruct Hl; congruence
       end.
Qed.

Lemma best_of_n_bind_flat variables m variables' :
  free_of "," (snd m) = true ->
  BestOfN.bind variables m = Some variables' -> flat variables -> flat variables'.
Proof.
  intros Hf H Hflat k path recursive Hin.
  destruct (parse_dir_flat (strip (snd m)) (free_of_strip _ _ Hf)) as [p Hp].
  destruct (parse_literal_kind (strip (snd m))) as [lit Hlit].
  bind_cases H; try (now apply (Hflat k path recursive));
    apply in_set_inv in Hin; destruct Hin as [[_ Hin]|Hin];
    try (now apply (Hflat k path recursive)); try congruence.
  all: match goal with
       | Hl : parse_list _ = Some _ |- _ =>
           apply parse_list_kind in Hl; destruct Hl; congruence
       end.
Qed.

(** X8: the value the pattern captures never holds a comma, so the
    [recursive=True] parameter of [$$dir] is never seen: no definitions
    string makes either parser return a recursive directory variable. *)
Theorem parser_never_recursive (var_definitions : string) :
  Forall (fun m => free_of "," (snd m) = true)
         (Re.finditer_definitions var_definitions)
  /\ (forall variables k path recursive,
        App3.parse_variable_definitions var_definitions = Some variables ->
        In (k, DirRef path recursive) variables -> recursive = false)
  /\ (forall variables k path recursive,
        BestOfN.parse_variable_definitions var_definitions = Some variables ->
        In (k, DirRef path recursive) variables -> recursive = false).
Proof.
  pose proof (definitions_from_shape var_definitions 0) as Hshape.
  fold (Re.finditer_definitions var_definitions) in Hshape.
  rewrite Forall_forall in Hshape.
  split; [|split].
  - apply Forall_forall. intros m Hm. now apply Hshape.
  - intros variables k path recursive Hp.
    apply (bind_all_invariant App3.bind flat _
             (fun vs m vs' Hin Hb => app3_bind_flat vs m vs' (proj2 (Hshape m Hin)) Hb)
             [] variables Hp).
    intros k' p' r' [].
  - intros variables k path recursive Hp.
    apply (bind_all_invariant BestOfN.bind flat _
             (fun vs m vs' Hin Hb =>
                best_of_n_bind_flat vs m vs' (proj2 (Hshape m Hin)) Hb)
             [] variables Hp).
    intros k' p' r' [].
Qed.

End ParserExtras.

Section KeyFacts.
Context {host : Host}.
Import Py Core.

Lemma collect_keys classify (variables : Dict.t spec) :
  forall iterative_vars fixed_vars iv fv,
    collect classify variables iterative_vars fixed_vars = Some (iv, fv) ->
    (forall k, In k (Dict.keys iv) ->
       In k (Dict.keys iterative_vars) \/ In k (Dict.keys variables))
    /\ (forall k, In k (Dict.keys fv) ->
       In k (Dict.keys fixed_vars) \/ In k (Dict.keys variables)).
Proof.
  induction variables as [|[n s] rest IH]; simpl; intros iv0 fv0 iv fv H.
  - inversion H; subst. auto.
  - destruct (classify s) as [[d|v|]|]; [| | |discriminate];
      destruct (IH _ _ _ _ H) as [H1 H2]; split; intros k Hk.
    + destruct (H1 k Hk) as [Hi|Hi]; auto.
      apply in_keys_set in Hi. destruct Hi; auto.
    + destruct (H2 k Hk); auto.
    + destruct (H1 k Hk); auto.
    + destruct (H2 k Hk) as [Hi|Hi]; auto.
      apply in_keys_set in Hi. destruct Hi; auto.
    + destruct (H1 k Hk); auto.
    + destruct (H2 k Hk); auto.
Qed.

Lemma cross_keys (Q : string -> Prop) iterative_vars : forall combinations l,
  cross iterative_vars combinations = Some l ->
  (forall y, In y (Dict.keys iterative_vars) -> Q y /\ Q (y ++ "_path")%string) ->
  (forall c, In c combinations -> forall k, In k (Dict.keys c) -> Q k) ->
  forall c, In c l -> forall k, In k (Dict.keys c) -> Q k.
Proof.
  induction iterative_vars as [|[y d] rest IH]; simpl; intros combinations l H Hq Hc.
  - inversion H; subst. exact Hc.
  - destruct (extend_all y d combinations) as [new|] eqn:E; [|discriminate].
    apply (IH new l H); [intros z Hz; apply Hq; now right|].
    intros c Hin k Hk.
    destruct (extend_all_shape _ _ _ _ E c Hin) as [combo [j [v [p [Hcombo [_ [_ ->]]]]]]].
    apply in_keys_set in Hk. destruct Hk as [->|Hk]; [apply Hq; now left|].
    apply in_keys_set in Hk. destruct Hk as [->|Hk]; [apply Hq; now left|].
    eapply Hc; eauto.
Qed.

Lemma add_fixed_keys fixed_vars : forall combo k,
  In k (Dict.keys (add_fixed fixed_vars combo)) ->
  In k (Dict.keys combo) \/ In k (Dict.keys fixed_vars).
Proof.
  unfold add_fixed.
  induction fixed_vars as [|[k0 v0] rest IH]; simpl; intros combo k Hk; auto.
  destruct (IH _ _ Hk) as [H|H]; auto.
  apply in_keys_set in H. destruct H; auto.
Qed.

(** The keys of a combination are names of variables, with or without the
    suffix [_path]. *)
Lemma expand_keys classify (variables : Dict.t spec) combinations combo k :
  expand classify variables = Some combinations ->
  In combo combinations -> In k (Dict.keys combo) ->
  exists x, In x (Dict.keys variables) /\ (k = x \/ k = (x ++ "_path")%string).
Proof.
  unfold expand. intros H Hc Hk.
  destruct (collect classify variables [] []) as [[iv fv]|] eqn:E; [|discriminate].
  destruct (cross iv [[]]) as [l|] eqn:El; [|discriminate].
  inversion H; subst. apply in_map_iff in Hc. destruct Hc as [c [<- Hc]].
  destruct (collect_keys _ _ _ _ _ _ E) as [Hiv Hfv].
  apply add_fixed_keys in Hk. destruct Hk as [Hk|Hk].
  - apply (cross_keys
             (fun k => exists x, In x (Dict.keys variables)
                                 /\ (k = x \/ k = (x ++ "_path")%string))
             iv [[]] l El) with (c := c); auto.
    + intros y Hy. destruct (Hiv y Hy) as [[]|Hy']. split; eauto.
    + intros c' [<-|[]] k' [].
  - destruct (Hfv k Hk) as [[]|Hk']. eauto.
Qed.

Lemma bind_named_step variables (n : string) (sp : spec) :
  identifier n = true -> named variables -> named (Dict.set n sp variables).
Proof.
  intros Hn Hv k Hk. apply in_keys_set in Hk. destruct Hk as [->|Hk]; auto.
Qed.

Lemma app3_bind_named variables m variables' :
  identifier (fst m) = true ->
  App3.bind variables m = Some variables' -> named variables -> named variables'.
Proof.
  intros Hi H Hn. rewrite <- (strip_identifier _ Hi) in Hi.
  unfold App3.bind in H. cbv zeta in H.
  repeat match type of H with
         | context [if ?c then _ else _] => destruct c eqn:?
         | context [match parse_dir ?v with _ => _ end] => destruct (parse_dir v) eqn:?
         | context [match parse_list ?v with _ => _ end] => destruct (parse_list v) eqn:?
         end;
    try discriminate; injection H as H; subst; auto using bind_named_step.
Qed.

Lemma best_of_n_bind_named variables m variables' :
  identifier (fst m) = true ->
  BestOfN.bind variables m = Some variables' -> named variables -> named variables'.
Proof.
  intros Hi H Hn. rewrite <- (strip_identifier _ Hi) in Hi.
  unfold BestOfN.bind in H. cbv zeta in H.
  repeat match type of H with
         | context [if ?c then _ else _] => destruct c eqn:?
         | context [match parse_dir ?v with _ => _ end] => destruct (parse_dir v) eqn:?
         | context [match parse_list ?v with _ => _ end] => destruct (parse_list v) eqn:?
         end;
    try discriminate; injection H as H; subst; auto using bind_named_step.
Qed.

Lemma parsed_named (var_definitions : string) (variables : Dict.t spec) :
  App3.parse_variable_definitions var_definitions = Some variables
  \/ BestOfN.parse_variable_definitions var_definitions = Some variables ->
  named variables.
Proof.
  pose proof (definitions_from_shape var_definitions 0) as Hshape.
  fold (Re.finditer_definitions var_definitions) in Hshape.
  rewrite Forall_forall in Hshape.
  intros [Hp|Hp].
  - apply (bind_all_invariant App3.bind named _
             (fun vs m vs' Hin Hb => app3_bind_named vs m vs' (proj1 (Hshape m Hin)) Hb)
             [] variables Hp).
    intros k [].
  - apply (bind_all_invariant BestOfN.bind named _
             (fun vs m vs' Hin Hb =>
                best_of_n_bind_named vs m vs' (proj1 (Hshape m Hin)) Hb)
             [] variables Hp).
    intros k [].
Qed.

(** X9: every name either parser binds is a name the pattern accepts (a
    letter or underscore followed by letters, digits and underscores), and
    every key of a combination expanded from a parsed mapping is such a
    name, possibly followed by [_path]; so no key holds a brace. *)
Theorem parsed_keys_are_identifiers
    fs (var_definitions : string) (variables : Dict.t spec) :
  App3.parse_variable_definitions var_definitions = Some variables
  \/ BestOfN.parse_variable_definitions var_definitions = Some variables ->
  (forall k, In k (Dict.keys variables) -> identifier k = true)
  /\ (forall combinations combo k,
        App3.expand_variables fs variables = Some combinations
        \/ BestOfN.expand_variables fs variables = Some combinations ->
        In combo combinations -> In k (Dict.keys combo) ->
        identifier k = true /\ free_of "{" k = true /\ free_of "}" k = true).
Proof.
  intros Hp. pose proof (parsed_named var_definitions variables Hp) as Hn.
  split; [exact Hn|].
  intros combinations combo k He Hc Hk.
  assert (Hx : exists x, In x (Dict.keys variables)
                         /\ (k = x \/ k = (x ++ "_path")%string)).
  { destruct He as [He|He]; eapply expand_keys; eauto. }
  destruct Hx as [x [Hx Hkx]].
  assert (Hi : identifier k = true).
  { destruct Hkx as [->| ->]; auto using identifier_path. }
  split; [exact Hi|]. apply identifier_brace_free in Hi. tauto.
Qed.

End KeyFacts.

(** Witness of [parsed_keys_are_identifiers]. *)
Lemma parsed_keys_are_identifiers_witness :
  App3.parse_variable_definitions (host := sample_host) "topic=water"
  = Some [("topic", Literal "water")]
  /\ identifier "topic" = true.
Proof.
  split; [reflexivity|].
  apply (proj1 (parsed_keys_are_identifiers (host := sample_host) sample_fs
                  "topic=water" [("topic", Literal "water")]
                  (or_introl eq_refl)) "topic").
  left. reflexivity.
Defined.

Section DeclarationOrder.
Context {host : Host}.
Import Py Core.

(** What a loop body does with a match does not depend on the mapping it
    is given: it leaves it as it is, assigns one value to the name, or
    raises. *)
Lemma app3_bind_shape (m : string * string) :
  (binds App3.special_form m = false
   /\ forall variables, App3.bind variables m = Some variables)
  \/ (binds App3.special_form m = true
      /\ ((exists sp, forall variables,
             App3.bind variables m = Some (Dict.set (strip (fst m)) sp variables))
          \/ forall variables, App3.bind variables m = None)).
Proof.
  unfold App3.bind, binds, App3.special_form. cbv zeta.
  remember (strip (snd m)) as v. remember (strip (fst m)) as n.
  destruct (startswith "$$" v) eqn:E0; [|right; split; [reflexivity|left; eauto]].
  destruct (startswith "$$file(" v && endswith ")" v) eqn:E1;
    [right; split; [reflexivity|left; eauto]|].
  destruct (startswith "$$dir(" v && endswith ")" v) eqn:E2.
  { right. split; [reflexivity|]. destruct (parse_dir v); [left; eauto|right; auto]. }
  destruct (startswith "$$list(" v && endswith ")" v) eqn:E3.
  { right. split; [reflexivity|]. destruct (parse_list v); [left; eauto|right; auto]. }
  left. split; [reflexivity|auto].
Qed.

Lemma best_of_n_bind_shape (m : string * string) :
  (binds BestOfN.special_form m = false
   /\ forall variables, BestOfN.bind variables m = Some variables)
  \/ (binds BestOfN.special_form m = true
      /\ ((exists sp, forall variables,
             BestOfN.bind variables m = Some (Dict.set (strip (fst m)) sp variables))
          \/ forall variables, BestOfN.bind variables m = None)).
Proof.
  unfold BestOfN.bind, binds, BestOfN.special_form. cbv zeta.
  remember (strip (snd m)) as v. remember (strip (fst m)) as n.
  destruct (startswith "$$" v) eqn:E0; [|right; split; [reflexivity|left; eauto]].
  destruct (startswith "$$file(" v && endswith ")" v) eqn:E1;
    [right; split; [reflexivity|left; eauto]|].
  destruct (startswith "$$dir(" v && endswith ")" v) eqn:E2.
  { right. split; [reflexivity|]. destruct (parse_dir v); [left; eauto|right; auto]. }
  destruct (startswith "$$list(" v && endswith ")" v) eqn:E3.
  { right. split; [reflexivity|]. destruct (parse_list v); [left; eauto|right; auto]. }
  destruct (startswith "$$results(" v && endswith ")" v) eqn:E4;
    [right; split; [reflexivity|left; eauto]|].
  destruct (startswith "$$initial_prompt(" v && endswith ")" v) eqn:E5;
    [right; split; [reflexivity|left; eauto]|].
  left. split; [reflexivity|auto].
Qed.

Lemma bind_all_app bind (first rest : list (string * string)) : forall variables,
  bind_all bind (first ++ rest) variables
  = match bind_all bind first variables with
    | Some variables' => bind_all bind rest variables'
    | None => None
    end.
Proof.
  induction first as [|m first IH]; simpl; intros variables; auto.
  destruct (bind variables m); auto.
Qed.

Variable bind : Dict.t spec -> string * string -> option (Dict.t spec).
Variable special_form : string -> bool.
Hypothesis bind_shape : forall m,
  (binds special_form m = false /\ forall variables, bind variables m = Some variables)
  \/ (binds special_form m = true
      /\ ((exists sp, forall variables,
             bind variables m = Some (Dict.set (strip (fst m)) sp variables))
          \/ forall variables, bind variables m = None)).

Lemma later_matches_keep (n : string) (after : list (string * string)) :
  forall variables result,
    bind_all bind after variables = Some result ->
    (forall m', In m' after -> strip (fst m') = n -> binds special_form m' = false) ->
    Dict.get n result = Dict.get n variables.
Proof.
  induction after as [|m' rest IH]; simpl; intros variables result H Hn.
  - now inversion H.
  - destruct (bind variables m') as [variables'|] eqn:E; [|discriminate].
    rewrite (IH variables' result H) by (intros; apply Hn; auto).
    destruct (bind_shape m') as [[_ Hsame]|[Hb [[sp Hset]|Hnone]]].
    + rewrite Hsame in E. now inversion E.
    + rewrite Hset in E. inversion E; subst. apply get_set_other.
      intros Heq. rewrite (Hn m' (or_introl eq_refl) (eq_sym Heq)) in Hb. discriminate.
    + rewrite Hnone in E. discriminate.
Qed.

Lemma last_binding (before after : list (string * string)) m variables :
  bind_all bind (before ++ m :: after) [] = Some variables ->
  binds special_form m = true ->
  (forall m', In m' after -> strip (fst m') = strip (fst m) ->
              binds special_form m' = false) ->
  exists sp,
    bind [] m = Some [(strip (fst m), sp)]
    /\ Dict.get (strip (fst m)) variables = Some sp.
Proof.
  intros H Hb Hafter. rewrite bind_all_app in H.
  destruct (bind_all bind before []) as [v1|]; [|discriminate].
  simpl in H. destruct (bind v1 m) as [v2|] eqn:E; [|discriminate].
  destruct (bind_shape m) as [[Hf _]|[_ [[sp Hset]|Hnone]]].
  - congruence.
  - exists sp. split; [now rewrite Hset|].
    rewrite (later_matches_keep _ after v2 variables H Hafter).
    rewrite Hset in E. inversion E; subst. apply get_set_same.
  - rewrite Hnone in E. discriminate.
Qed.

End DeclarationOrder.

Section DeclarationOrderTheorem.
Context {host : Host}.
Import Py Core.

(** X10: when a name is declared several times, the value kept is the one
    of the last declaration that binds: the mapping gives the name what
    parsing that declaration alone would give it. *)
Theorem later_declaration_wins
    (var_definitions : string) (before after : list (string * string))
    (m : string * string) :
  Re.finditer_definitions var_definitions = before ++ m :: after ->
  (binds App3.special_form m = true ->
   (forall m', In m' after -> fst m' = fst m ->
               binds App3.special_form m' = false) ->
   forall variables,
     App3.parse_variable_definitions var_definitions = Some variables ->
     exists sp,
       App3.bind [] m = Some [(fst m, sp)]
       /\ Dict.get (fst m) variables = Some sp)
  /\ (binds BestOfN.special_form m = true ->
   (forall m', In m' after -> fst m' = fst m ->
               binds BestOfN.special_form m' = false) ->
   forall variables,
     BestOfN.parse_variable_definitions var_definitions = Some variables ->
     exists sp,
       BestOfN.bind [] m = Some [(fst m, sp)]
       /\ Dict.get (fst m) variables = Some sp).
Proof.
  intros Hm.
  pose proof (definitions_from_shape var_definitions 0) as Hshape.
  fold (Re.finditer_definitions var_definitions) in Hshape.
  rewrite Hm, Forall_forall in Hshape.
  assert (Hid : forall m', In m' (m :: after) -> strip (fst m') = fst m').
  { intros m' Hin. apply strip_identifier, Hshape, in_or_app. now right. }
  split; intros Hb Hafter variables Hp.
  - unfold App3.parse_variable_definitions in Hp. rewrite Hm in Hp.
    rewrite <- (Hid m (or_introl eq_refl)).
    apply (last_binding App3.bind App3.special_form app3_bind_shape before after);
      auto.
    intros m' Hin Heq. apply Hafter; auto.
    now rewrite <- (Hid m' (or_intror Hin)), <- (Hid m (or_introl eq_refl)).
  - unfold BestOfN.parse_variable_definitions in Hp. rewrite Hm in Hp.
    rewrite <- (Hid m (or_introl eq_refl)).
    apply (last_binding BestOfN.bind BestOfN.special_form best_of_n_bind_shape
             before after); auto.
    intros m' Hin Heq. apply Hafter; auto.
    now rewrite <- (Hid m' (or_intror Hin)), <- (Hid m (or_introl eq_refl)).
Qed.

End DeclarationOrderTheorem.

(** Witness of [later_declaration_wins]: [a] is declared twice. *)
Lemma later_declaration_wins_witness :
  exists sp,
    App3.bind (host := sample_host) [] ("a", "3") = Some [("a", sp)]
    /\ Dict.get "a" [("a", Literal "3"); ("b", Literal "2")] = Some sp.
Proof.
  apply (proj1 (later_declaration_wins (host := sample_host) "a=1, b=2, a=3"
                  [("a", "1"); ("b", "2")] [] ("a", "3") eq_refl)).
  - reflexivity.
  - intros m' [].
  - reflexivity.
Defined.

Section QuotedLiteral.
Context {host : Host}.
Import Py Core.

Lemma take_while_stop p (r x : string) (e : ascii) :
  all_chars p r = true -> p e = false ->
  take_while p (r ++ String e x) = r
  /\ drop_while p (r ++ String e x) = String e x.
Proof.
  intros Hr He. induction r as [|a r IH]; simpl.
  - now rewrite He.
  - simpl in Hr. apply andb_true_iff in Hr. destruct Hr as [Ha Hr].
    rewrite Ha. destruct (IH Hr) as [-> ->]. auto.
Qed.

Lemma take_while_whole p (s : string) :
  all_chars p s = true -> take_while p s = s /\ drop_while p s = "".
Proof.
  induction s as [|a s IH]; simpl; auto.
  intros H. apply andb_true_iff in H. destruct H as [Ha Hs].
  rewrite Ha. destruct (IH Hs) as [-> ->]. auto.
Qed.

Lemma definitions_from_past (t : string) : forall n,
  String.length t <= n -> Re.definitions_from n t = [].
Proof.
  induction t as [|c t IH]; intros n Hn; [reflexivity|].
  simpl in Hn. destruct n as [|n]; [lia|]. simpl. apply IH. lia.
Qed.

Lemma rstrip_end (t : string) (c : ascii) :
  isspace c = false -> rstrip (t ++ String c "") = (t ++ String c "")%string.
Proof.
  intros Hc. induction t as [|a t IH]; simpl.
  - now rewrite Hc.
  - rewrite IH. now destruct t.
Qed.

Lemma endswith_end (p t : string) : endswith p (t ++ p) = true.
Proof.
  induction t as [|a t IH]; simpl.
  - destruct p; simpl; [reflexivity|]. now rewrite Ascii.eqb_refl, String.eqb_refl.
  - rewrite IH. apply orb_true_r.
Qed.

Lemma removelast_end (t : string) (c : ascii) : removelast (t ++ String c "") = t.
Proof.
  induction t as [|a t IH]; simpl; auto.
  rewrite IH. now destruct t.
Qed.

Lemma quoted_match (q : ascii) (name s : string) :
  quote_char q -> identifier name = true -> free_of "," s = true ->
  Re.finditer_definitions (name ++ String "=" (String q (s ++ String q "")))
  = [(name, String q (s ++ String q ""))].
Proof.
  intros Hq Hn Hs. destruct name as [|c r]; [discriminate|].
  simpl in Hn. apply andb_true_iff in Hn. destruct Hn as [Hc Hr].
  set (body := String q (s ++ String q "")).
  assert (Hbody : all_chars Re.not_comma body = true).
  { unfold body. cbn [all_chars]. rewrite all_chars_append. cbn [all_chars].
    rewrite free_of_all_chars in Hs. unfold Re.not_comma at 2.
    rewrite Hs. destruct Hq as [-> | ->]; reflexivity. }
  assert (Hsp : isspace q = false) by (destruct Hq as [-> | ->]; reflexivity).
  destruct (take_while_stop Re.name_char r body "=" Hr eq_refl) as [Ht Hd].
  destruct (take_while_whole Re.not_comma body Hbody) as [Hb1 Hb2].
  assert (Hat : Re.definition_at (String c r ++ String "=" body)
                = Some (String c r, body,
                        String.length (String c r) + 0 + 1 + String.length body + 0)).
  { unfold Re.definition_at.
    change (String c r ++ String "=" body)%string with (String c (r ++ String "=" body)).
    cbv beta iota zeta. rewrite Hc, Ht, Hd. cbn [drop_while take_while].
    change (isspace "=") with false. cbv iota. cbn [String.length].
    rewrite Hb1, Hb2. unfold body at 1. cbv iota.
    unfold body at 1. cbn [drop_while]. rewrite Hsp. reflexivity. }
  unfold Re.finditer_definitions.
  change (String c r ++ String "=" body)%string with (String c (r ++ String "=" body)) in *.
  cbn [Re.definitions_from]. rewrite Hat. f_equal.
  apply definitions_from_past. rewrite length_append. simpl. lia.
Qed.

Lemma quoted_literal (q : ascii) (s : string) :
  quote_char q ->
  strip (String q (s ++ String q "")) = String q (s ++ String q "")
  /\ startswith "$$" (String q (s ++ String q "")) = false
  /\ parse_literal (String q (s ++ String q "")) = Literal s.
Proof.
  intros Hq.
  assert (Hsp : isspace q = false) by (destruct Hq as [-> | ->]; reflexivity).
  split; [|split].
  - unfold strip. rewrite lstrip_head by exact Hsp.
    change (String q (s ++ String q "")) with (String q s ++ String q "")%string.
    now apply rstrip_end.
  - destruct Hq as [-> | ->]; reflexivity.
  - unfold parse_literal.
    assert (Hend : endswith (String q "") (String q (s ++ String q "")) = true).
    { change (String q (s ++ String q "")) with (String q s ++ String q "")%string.
      apply endswith_end. }
    assert (Hcut : slice_to_last 1 (String q (s ++ String q "")) = s).
    { unfold slice_to_last.
      change (String q (s ++ String q "")) with (String q s ++ String q "")%string.
      now rewrite removelast_end. }
    destruct Hq as [-> | ->].
    + change DQ with (String (ascii_of_nat 34) ""). rewrite Hend, Hcut.
      cbn [startswith]. rewrite Ascii.eqb_refl. reflexivity.
    + rewrite Hend, Hcut.
      replace (startswith DQ (String "'" (s ++ "'"))) with false by reflexivity.
      cbn [startswith andb orb]. rewrite Ascii.eqb_refl. reflexivity.
Qed.

(** X11: a declaration [name="text"] or [name='text'], where the name is
    one the pattern accepts and the text holds no comma, parses in both
    files to the mapping that gives the name exactly that text: inner
    spaces and quotes are kept. *)
Theorem quoted_literal_round_trip (q : ascii) (name s : string) :
  quote_char q -> identifier name = true -> free_of "," s = true ->
  App3.parse_variable_definitions (name ++ String "=" (String q (s ++ String q "")))
  = Some [(name, Literal s)]
  /\ BestOfN.parse_variable_definitions
       (name ++ String "=" (String q (s ++ String q "")))
     = Some [(name, Literal s)].
Proof.
  intros Hq Hn Hs.
  destruct (quoted_literal q s Hq) as [H1 [H2 H3]].
  unfold App3.parse_variable_definitions, BestOfN.parse_variable_definitions.
  rewrite (quoted_match q name s Hq Hn Hs).
  cbn [bind_all]. unfold App3.bind, BestOfN.bind. cbn [fst snd].
  rewrite (strip_identifier name Hn), H1, H2, H3. split; reflexivity.
Qed.

End QuotedLiteral.

(** Witness of [quoted_literal_round_trip]. *)
Lemma quoted_literal_round_trip_witness :
  App3.parse_variable_definitions (host := sample_host) "tone='very kind'"
  = Some [("tone", Literal "very kind")].
Proof.
  apply (proj1 (quoted_literal_round_trip (host := sample_host) "'" "tone" "very kind"
                  (or_intror eq_refl) eq_refl eq_refl)).
Defined.

(* ===================================================================== *)
(** * Further properties: the renderer *)
(* ===================================================================== *)

Section RendererExtras.
Context {host : Host}.
Import Py Core.

Lemma get_permutation (variables variables' : combination) n :
  NoDup (Dict.keys variables) -> Permutation variables variables' ->
  Dict.get n variables' = Dict.get n variables.
Proof.
  intros ND Hp.
  assert (ND' : NoDup (Dict.keys variables')).
  { unfold Dict.keys. eapply Permutation_NoDup; [|exact ND]. now apply Permutation_map. }
  destruct (Dict.get n variables) as [v|] eqn:G.
  - apply in_get_nodup; auto. eapply Permutation_in; eauto. now apply get_some_in.
  - destruct (Dict.get n variables') as [v'|] eqn:G'; auto.
    apply get_some_in in G'. apply (Permutation_in _ (Permutation_sym Hp)) in G'.
    apply (in_get_nodup _ _ _ ND) in G'. congruence.
Qed.

Lemma binding_permutation usable (variables variables' : combination) n :
  NoDup (Dict.keys variables) -> Permutation variables variables' ->
  binding usable variables' n = binding usable variables n.
Proof.
  intros ND Hp.
  assert (ND' : NoDup (Dict.keys variables')).
  { unfold Dict.keys. eapply Permutation_NoDup; [|exact ND]. now apply Permutation_map. }
  pose proof (get_permutation variables variables' n ND Hp) as G.
  destruct (Dict.get n variables) as [v|] eqn:E.
  - now rewrite (binding_get usable _ n v ND' G), (binding_get usable _ n v ND E).
  - now rewrite (binding_absent usable _ n G), (binding_absent usable _ n E).
Qed.

Lemma rendering_permutation usable (variables variables' : combination) segments :
  NoDup (Dict.keys variables) -> Permutation variables variables' ->
  rendering usable variables' segments = rendering usable variables segments.
Proof.
  intros ND Hp. unfold rendering. f_equal. apply map_ext. intros [text|n]; auto.
  cbn [filled]. now rewrite (binding_permutation usable _ _ n ND Hp).
Qed.

Lemma brace_safe_permutation usable (variables variables' : combination) :
  Permutation variables variables' ->
  brace_safe usable variables -> brace_safe usable variables'.
Proof.
  intros Hp Hs k v Hin. apply Hs.
  exact (Permutation_in _ (Permutation_sym Hp) Hin).
Qed.

(** X12: on a well-formed template and a combination with distinct keys
    whose keys and substituted texts are brace-safe, the rendered text does
    not depend on the order of the entries. *)
Theorem render_template_order_independent
    (segments : list segment) (variables variables' : combination) :
  Forall well_formed segments ->
  NoDup (Dict.keys variables) ->
  Permutation variables variables' ->
  (brace_safe app3_usable variables ->
   App3.render_template (spell segments) variables'
   = App3.render_template (spell segments) variables)
  /\ (brace_safe best_of_n_usable variables ->
   BestOfN.render_template (spell segments) variables'
   = BestOfN.render_template (spell segments) variables).
Proof.
  intros Hwf ND Hp. split; intros Hs.
  - unfold App3.render_template.
    rewrite (render_spell app3_usable App3.substitute variables');
      [|intros result k v; reflexivity|exact Hwf
       |exact (brace_safe_permutation _ _ _ Hp Hs)].
    rewrite (render_spell app3_usable App3.substitute variables);
      [|intros result k v; reflexivity|exact Hwf|exact Hs].
    now apply rendering_permutation.
  - unfold BestOfN.render_template.
    rewrite (render_spell best_of_n_usable BestOfN.substitute variables');
      [|intros result k v; reflexivity|exact Hwf
       |exact (brace_safe_permutation _ _ _ Hp Hs)].
    rewrite (render_spell best_of_n_usable BestOfN.substitute variables);
      [|intros result k v; reflexivity|exact Hwf|exact Hs].
    now apply rendering_permutation.
Qed.

(** The first loop leaves alone a template none of whose placeholders is
    named by an entry it substitutes. *)
Lemma substitute_untouched (usable : string * pyval -> bool)
    (substitute : string -> string * pyval -> string) (segments : list segment) :
  (forall result k v,
     substitute result (k, v)
     = if usable (k, v) then replace (placeholder k) (py_str v) result else result) ->
  Forall well_formed segments ->
  forall variables : combination,
    (forall k v, In (k, v) variables -> free_of "}" k = true) ->
    (forall k v, In (k, v) variables -> usable (k, v) = true ->
                 ~ In k (holes segments)) ->
    fold_left substitute variables (spell segments) = spell segments.
Proof.
  intros Hsub Hwf. induction variables as [|[k v] rest IH]; intros Hk Hu;
    [reflexivity|].
  cbn [fold_left]. rewrite Hsub.
  assert (Hrest : fold_left substitute rest (spell segments) = spell segments).
  { apply IH; intros k' v' Hin; [apply (Hk k' v') | apply (Hu k' v')]; now right. }
  destruct (usable (k, v)) eqn:U; [|exact Hrest].
  rewrite replace_spell; [|exact Hwf|apply (Hk k v); now left].
  assert (Hid : map (fill_one k (py_str v)) segments = segments).
  { pose proof (Hu k v (or_introl eq_refl) U) as Hno. clear - Hno.
    induction segments as [|[text|n] l IHl]; cbn [map fill_one holes] in *;
      [reflexivity|now rewrite IHl|].
    destruct (String.eqb n k) eqn:E.
    - apply String.eqb_eq in E. subst n. exfalso. apply Hno. now left.
    - rewrite IHl; [reflexivity|]. intros Hin. apply Hno. now right. }
  rewrite Hid. exact Hrest.
Qed.

(** X13: an entry the first loop skips is never substituted: between texts
    without an opening brace and for a combination whose keys hold no
    closing brace, a placeholder whose name ends in [_path] becomes its
    [UNDEFINED_VARIABLE_] marker in both files even when the combination
    has the key, and so does in [best_of_n.py] a placeholder whose value is
    a [dict].  The values of the combination are not restricted. *)
Theorem skipped_entries_are_marked
    (before after n : string) (variables : combination) :
  free_of "{" before = true -> free_of "{" after = true ->
  n <> "" -> free_of "{" n = true -> free_of "}" n = true ->
  (forall k, In k (Dict.keys variables) -> free_of "}" k = true) ->
  (endswith "_path" n = true ->
   App3.render_template (before ++ placeholder n ++ after) variables
   = (before ++ "UNDEFINED_VARIABLE_" ++ n ++ after)%string)
  /\ (endswith "_path" n = true ->
   BestOfN.render_template (before ++ placeholder n ++ after) variables
   = (before ++ "UNDEFINED_VARIABLE_" ++ n ++ after)%string)
  /\ (forall v, NoDup (Dict.keys variables) -> Dict.get n variables = Some v ->
      is_dict v = true ->
   BestOfN.render_template (before ++ placeholder n ++ after) variables
   = (before ++ "UNDEFINED_VARIABLE_" ++ n ++ after)%string).
Proof.
  intros Hb Ha Hne Hn1 Hn2 Hkeys.
  assert (Hwf : Forall well_formed [Plain before; Hole n; Plain after]).
  { repeat constructor; auto. }
  assert (Hsp : spell [Plain before; Hole n; Plain after]
                = (before ++ placeholder n ++ after)%string).
  { cbn [spell segment_text]. now rewrite append_nil_r. }
  assert (Hk : forall k (v : pyval), In (k, v) variables -> free_of "}" k = true).
  { intros k v Hin. apply Hkeys. unfold Dict.keys.
    change k with (fst (k, v)). now apply in_map. }
  assert (Hmark : mark_remaining (spell [Plain before; Hole n; Plain after])
                  = (before ++ "UNDEFINED_VARIABLE_" ++ n ++ after)%string).
  { rewrite mark_remaining_spell by exact Hwf.
    cbn [holes map mark_segment existsb]. rewrite String.eqb_refl.
    cbn [orb spell segment_text]. rewrite append_nil_r. now rewrite !append_assoc. }
  rewrite <- Hsp. split; [|split].
  - intros Hp. unfold App3.render_template.
    rewrite (substitute_untouched app3_usable App3.substitute);
      [exact Hmark|intros result k v; reflexivity|exact Hwf|exact Hk|].
    intros k v Hin U [<-|[]]. unfold app3_usable in U. cbn [fst] in U.
    rewrite Hp in U. discriminate.
  - intros Hp. unfold BestOfN.render_template.
    rewrite (substitute_untouched best_of_n_usable BestOfN.substitute);
      [exact Hmark|intros result k v; reflexivity|exact Hwf|exact Hk|].
    intros k v Hin U [<-|[]]. unfold best_of_n_usable in U. cbn [fst snd] in U.
    rewrite Hp in U. discriminate.
  - intros v ND G Hd. unfold BestOfN.render_template.
    rewrite (substitute_untouched best_of_n_usable BestOfN.substitute);
      [exact Hmark|intros result k w; reflexivity|exact Hwf|exact Hk|].
    intros k w Hin U [<-|[]]. apply (in_get_nodup _ _ _ ND) in Hin.
    rewrite G in Hin. injection Hin as <-.
    unfold best_of_n_usable in U. cbn [fst snd] in U. rewrite Hd in U.
    rewrite andb_false_r in U. discriminate.
Qed.

End RendererExtras.

(** Witness of [render_template_order_independent]. *)
Lemma render_template_order_independent_witness :
  App3.render_template (host := sample_host) "{{a}}-{{b}}"
    [("b", PStr "2"); ("a", PStr "1")]
  = App3.render_template (host := sample_host) "{{a}}-{{b}}"
      [("a", PStr "1"); ("b", PStr "2")].
Proof.
  apply (proj1 (render_template_order_independent (host := sample_host)
                  [Hole "a"; Plain "-"; Hole "b"]
                  [("a", PStr "1"); ("b", PStr "2")]
                  [("b", PStr "2"); ("a", PStr "1")]
                  ltac:(repeat constructor; simpl; intuition discriminate)
                  ltac:(repeat constructor; simpl; intuition discriminate)
                  (perm_swap _ _ _))).
  intros k v [H|[H|[]]]; inversion H; subst; split; reflexivity.
Defined.

(** Witness of [skipped_entries_are_marked]: the value of [doc] holds
    braces. *)
Lemma skipped_entries_are_marked_witness :
  App3.render_template (host := sample_host) "from {{doc_path}}."
    [("doc", PStr "f() { }"); ("doc_path", PStr "a.c")]
  = "from UNDEFINED_VARIABLE_doc_path.".
Proof.
  apply (proj1 (skipped_entries_are_marked (host := sample_host)
                  "from " "." "doc_path"
                  [("doc", PStr "f() { }"); ("doc_path", PStr "a.c")]
                  eq_refl eq_refl ltac:(discriminate) eq_refl eq_refl
                  ltac:(intros k [<-|[<-|[]]]; reflexivity))).
  reflexivity.
Defined.

(* ===================================================================== *)
(** * Further properties: the resolver of the evaluation prompt *)
(* ===================================================================== *)

Section ResolverExtras.
Context {host : Host}.
Import Py Core.

Lemma resolve_special_nil ip outs (segments : list segment) :
  map (resolve_special ip outs []) segments = segments.
Proof.
  induction segments as [|[t|n] l IH]; cbn [map resolve_special special_binding];
    now rewrite ?IH.
Qed.

Lemma resolve_special_step ip outs k s t rest g :
  special_text ip outs s = Some t ->
  resolve_special ip outs rest (fill_one k t g)
  = resolve_special ip outs ((k, s) :: rest) g.
Proof.
  intros Hs. destruct g as [text|n]; cbn [resolve_special special_binding fill_one].
  - reflexivity.
  - rewrite Hs. destruct (String.eqb n k); reflexivity.
Qed.

Lemma resolve_special_skip ip outs k s rest g :
  special_text ip outs s = None ->
  resolve_special ip outs ((k, s) :: rest) g = resolve_special ip outs rest g.
Proof.
  intros Hs. destruct g as [text|n]; cbn [resolve_special special_binding]; auto.
  now rewrite Hs.
Qed.

Lemma resolve_special_text ip outs result k s :
  BestOfN.resolve ip outs result (k, s)
  = match special_text ip outs s with
    | Some t => replace (placeholder k) t result
    | None => result
    end.
Proof. destruct s; reflexivity. Qed.

(** X14: on a well-formed template the resolver turns every placeholder
    named by a results or initial-prompt entry into the text of the first
    such entry of that name and leaves every other part of the template,
    the placeholders of other names included, as it is; the names of the
    special entries hold no closing brace and their texts no opening
    brace. *)
Theorem resolver_fills_special_placeholders
    (initial_prompt : string) (outputs : list string)
    (variables : Dict.t spec) (segments : list segment) :
  Forall well_formed segments ->
  special_safe initial_prompt outputs variables ->
  BestOfN.process_special_variables (spell segments) variables
    initial_prompt outputs
  = spell (map (resolve_special initial_prompt outputs variables) segments).
Proof.
  unfold BestOfN.process_special_variables.
  revert segments. induction variables as [|[k s] rest IH]; intros segments Hwf Hsafe.
  - cbn [fold_left]. now rewrite resolve_special_nil.
  - cbn [fold_left]. rewrite resolve_special_text.
    assert (Hrest : special_safe initial_prompt outputs rest).
    { intros k' s' t' Hin. apply Hsafe. now right. }
    destruct (special_text initial_prompt outputs s) as [t|] eqn:Hs.
    + destruct (Hsafe k s t (or_introl eq_refl) Hs) as [Hk Ht].
      rewrite replace_spell by assumption.
      rewrite IH; auto using fill_one_well_formed.
      rewrite map_map. f_equal. apply map_ext. intros g.
      now apply resolve_special_step.
    + rewrite IH; auto. f_equal. apply map_ext. intros g.
      symmetry. now apply resolve_special_skip.
Qed.

End ResolverExtras.

(** Witness of [resolver_fills_special_placeholders]. *)
Lemma resolver_fills_special_placeholders_witness :
  BestOfN.process_special_variables (host := sample_host)
    "Task: {{initial_prompt}} Answers: {{outputs}} Rule: {{rule}}"
    [("outputs", ResultsRef "Output"); ("initial_prompt", InitialPromptRef);
     ("rule", Literal "be fair")]
    "name a colour" ["red"; "blue"]
  = ("Task: name a colour Answers: <Output1>" ++ Py.LF ++ "red" ++ Py.LF
     ++ "</Output1>" ++ Py.LF ++ "<Output2>" ++ Py.LF ++ "blue" ++ Py.LF
     ++ "</Output2>" ++ Py.LF ++ " Rule: {{rule}}")%string.
Proof.
  apply (resolver_fills_special_placeholders (host := sample_host)
           "name a colour" ["red"; "blue"]
           [("outputs", ResultsRef "Output"); ("initial_prompt", InitialPromptRef);
            ("rule", Literal "be fair")]
           [Plain "Task: "; Hole "initial_prompt"; Plain " Answers: ";
            Hole "outputs"; Plain " Rule: "; Hole "rule"]).
  - repeat constructor; simpl; intuition discriminate.
  - intros k s t [H|[H|[H|[]]]] Ht; inversion H; subst; inversion Ht; subst;
      split; reflexivity.
Defined.

(* ===================================================================== *)
(** * Further properties: the name of the log file *)
(* ===================================================================== *)

Section LogNameTheorems.
Import Py Core.

Lemma contains_char (c : ascii) (s : string) :
  contains (String c "") s = negb (free_of c s).
Proof.
  induction s as [|a s IH]; [reflexivity|].
  cbn [contains startswith free_of]. rewrite IH.
  rewrite (Ascii.eqb_sym c a). destruct (Ascii.eqb a c); destruct s; reflexivity.
Qed.

Lemma rcut_none (sep : ascii) (s : string) :
  free_of sep s = true -> rcut sep s = None.
Proof.
  induction s as [|a s IH]; [reflexivity|]. cbn [free_of rcut].
  intros H. apply andb_true_iff in H. destruct H as [Ha Hs].
  rewrite (IH Hs). apply negb_true_iff in Ha. now rewrite Ha.
Qed.

Lemma rcut_some (sep : ascii) (s : string) :
  free_of sep s = false ->
  exists head rest,
    rcut sep s = Some (head, rest)
    /\ s = (head ++ String sep rest)%string
    /\ free_of sep rest = true.
Proof.
  induction s as [|a s IH]; [discriminate|]. cbn [free_of rcut]. intros H.
  destruct (free_of sep s) eqn:F.
  - rewrite (rcut_none sep s F). rewrite andb_true_r in H.
    apply negb_false_iff in H. rewrite H. apply Ascii.eqb_eq in H. subst a.
    exists EmptyString, s. auto.
  - destruct (IH eq_refl) as (head & rest & Hc & Hs & Hf). rewrite Hc.
    exists (String a head), rest. repeat split; auto. simpl. now rewrite <- Hs.
Qed.

(** X15: [get_log_filename] never raises.  Without the date option it gives
    the path back; with it, the name of the file gets the time stamp at its
    end when it has no dot, and otherwise before its last dot, so that the
    extension, the name before it and the directory are kept. *)
Theorem get_log_filename_keeps_extension (fs : FileSystem) (names : PathNames)
    (base_path datetime_str : string) :
  get_log_filename fs names base_path false datetime_str = Some base_path
  /\ exists new_filename,
       get_log_filename fs names base_path true datetime_str
       = Some (os_path_join fs (os_path_dirname names base_path) new_filename)
       /\ (free_of "." (os_path_basename names base_path) = true ->
           new_filename
           = (os_path_basename names base_path ++ "_" ++ datetime_str)%string)
       /\ (free_of "." (os_path_basename names base_path) = false ->
           exists name ext,
             os_path_basename names base_path = (name ++ "." ++ ext)%string
             /\ free_of "." ext = true
             /\ new_filename
                = (name ++ "_" ++ datetime_str ++ "." ++ ext)%string).
Proof.
  split; [reflexivity|]. unfold get_log_filename. cbn [negb].
  cbv beta iota zeta. rewrite contains_char.
  destruct (free_of "." (os_path_basename names base_path)) eqn:F; cbn [negb].
  - eexists. split; [reflexivity|]. split; [reflexivity | discriminate].
  - destruct (rcut_some _ _ F) as (name & ext & Hc & Hs & Hf).
    unfold rsplit1. rewrite Hc. cbn [unpack2].
    eexists. split; [reflexivity|]. split; [discriminate|].
    intros _. exists name, ext. auto.
Qed.

End LogNameTheorems.

(* ===================================================================== *)
(** * Further properties: the log document *)
(* ===================================================================== *)

Section LogDocumentTheorems.
Context {host : Host}.
Import Core.

(** X16: when the log file is missing or cannot be parsed, either logger
    writes a document whose root [sessions] has the new session as its only
    child, so the sessions of a file that does not parse are not carried
    over; the text is written when the directory can be made. *)
Theorem unreadable_log_is_replaced (store : LogStore) (timestamp log_file : string) :
  exists_file store log_file = false \/ parse store log_file = None ->
  (forall sd,
     App3.log_session store timestamp log_file sd
     = if makedirs store log_file
       then pretty store
              (Element "sessions" [] None [App3.session_element timestamp sd] None)
       else None)
  /\ (forall sd,
     BestOfN.log_session store timestamp log_file sd
     = if makedirs store log_file
       then pretty store
              (Element "sessions" [] None [BestOfN.session_element timestamp sd] None)
       else None).
Proof.
  intros H.
  assert (R : open_root store log_file = new_element "sessions").
  { unfold open_root. destruct H as [H|H]; rewrite H; [reflexivity|].
    now destruct (exists_file store log_file). }
  split; intros sd; unfold App3.log_session, BestOfN.log_session, write_log;
    rewrite R; cbn [append_child new_element app];
    match goal with |- context [pretty store ?e] => destruct (pretty store e) end;
    destruct (makedirs store log_file); reflexivity.
Qed.

End LogDocumentTheorems.

(** Witness of [unreadable_log_is_replaced]. *)
Lemma unreadable_log_is_replaced_witness :
  BestOfN.log_session (host := sample_host) damaged_store "now" "logs/t.xml"
    leaky_session
  = Some "sessions session datetime initial_prompt num_runs llm_parameters system_prompt prompt_template variables runs evaluation prompt_template variables rendered_prompt output".
Proof.
  apply (proj2 (unreadable_log_is_replaced (host := sample_host) damaged_store
                  "now" "logs/t.xml" (or_intror eq_refl)) leaky_session).
Defined.

(* ===================================================================== *)
(** * Further properties: the two programs *)
(* ===================================================================== *)

Section MainTheorems.
Context {host : Host}.
Import Py Core.

Lemma process_combinations_variables svc template combinations : forall i,
  map App3.input_variables (App3.process_combinations svc template i combinations)
  = combinations.
Proof.
  induction combinations as [|c rest IH]; intros i; cbn; [reflexivity|].
  now rewrite IH.
Qed.

Lemma process_combinations_nth svc template combinations : forall i j d,
  nth_error (App3.process_combinations svc template i combinations) j = Some d ->
  App3.input_prompt d = App3.render_template template (App3.input_variables d)
  /\ App3.input_output d = call_llm svc (i + j).
Proof.
  induction combinations as [|c rest IH]; intros i j d H.
  - destruct j; discriminate.
  - destruct j as [|j]; cbn [App3.process_combinations nth_error] in H.
    + inversion H; subst. cbn. now rewrite Nat.add_0_r.
    + rewrite <- Nat.add_succ_comm. now apply IH.
Qed.

Lemma limit_firstn {A : Type} (n : nat) (l : list A) :
  (if Nat.ltb n (length l) then firstn n l else l) = firstn n l.
Proof.
  destruct (Nat.ltb n (length l)) eqn:E; [reflexivity|].
  apply Nat.ltb_ge in E. symmetry. now apply firstn_all2.
Qed.

(** X17: a run of [main] of [app3.py] that reaches the logging step has
    parsed the definitions and expanded them, and has processed exactly the
    first [max_iterations] combinations, in order: one input for each, with
    the prompt rendered from the template and that combination and the
    result of the request of that rank. *)
Theorem main_processes_first_combinations
    (fs : FileSystem) (svc : ModelService) (names : PathNames) (store : LogStore)
    (datetime_str timestamp : string) (ui : App3.settings)
    (sd : App3.session_data) (logged : option (string * string)) :
  App3.main fs svc names store datetime_str timestamp ui = Completed sd logged ->
  exists variables combinations,
    App3.parse_variable_definitions (App3.var_definitions ui) = Some variables
    /\ App3.expand_variables fs variables = Some combinations
    /\ map App3.input_variables (App3.inputs sd)
       = firstn (App3.max_iterations ui) combinations
    /\ length (App3.inputs sd)
       = Nat.min (App3.max_iterations ui) (length combinations)
    /\ forall i d, nth_error (App3.inputs sd) i = Some d ->
         App3.input_prompt d
         = App3.render_template (App3.prompt_template ui) (App3.input_variables d)
         /\ App3.input_output d = call_llm svc i.
Proof.
  unfold App3.main. intros H.
  destruct (String.eqb (App3.api_key ui) ""); [discriminate|].
  destruct (App3.parse_variable_definitions (App3.var_definitions ui))
    as [variables|] eqn:P; [|discriminate].
  destruct (App3.expand_variables fs variables) as [combinations|] eqn:E;
    [|discriminate].
  destruct combinations as [|c rest] eqn:C; [discriminate|].
  rewrite <- C in *. rewrite limit_firstn in H.
  exists variables, combinations. split; [reflexivity|]. split; [exact E|].
  assert (Hin : App3.inputs sd
                = App3.process_combinations svc (App3.prompt_template ui) 0
                    (firstn (App3.max_iterations ui) combinations)).
  { rewrite C in H. inversion H; subst. reflexivity. }
  rewrite Hin. split; [apply process_combinations_variables|]. split.
  - rewrite <- (length_map App3.input_variables), process_combinations_variables.
    apply length_firstn.
  - intros i d Hd. now apply process_combinations_nth in Hd.
Qed.

Lemma batch_call_llm_length svc n : length (BestOfN.batch_call_llm svc n) = n.
Proof.
  unfold BestOfN.batch_call_llm. destruct (connect svc); [apply repeat_length|].
  destruct (BestOfN.request_all svc 0 n) eqn:E.
  - apply repeat_length.
  - eapply request_all_length; eauto.
Qed.

(** X18: a run of [main] of [best_of_n.py] that reaches the logging step
    uses the first combination only: every one of its [num_runs] runs has
    the prompt rendered from that combination, whatever other combinations
    the definitions give, and the evaluation prompt is the evaluation
    template resolved with that prompt and the outputs of the runs, in run
    order. *)
Theorem main_runs_first_combination_only
    (fs : FileSystem) (svc : ModelService) (names : PathNames) (store : LogStore)
    (datetime_str timestamp : string) (ui : BestOfN.settings)
    (sd : BestOfN.session_data) (logged : option (string * string)) :
  BestOfN.main fs svc names store datetime_str timestamp ui = Completed sd logged ->
  exists initial_variables combo others eval_variables,
    BestOfN.parse_variable_definitions (BestOfN.initial_var_definitions ui)
    = Some initial_variables
    /\ BestOfN.expand_variables fs initial_variables = Some (combo :: others)
    /\ BestOfN.parse_variable_definitions (BestOfN.eval_var_definitions ui)
       = Some eval_variables
    /\ length (BestOfN.runs sd) = BestOfN.runs_wanted ui
    /\ (forall r, In r (BestOfN.runs sd) ->
          BestOfN.run_prompt r
          = BestOfN.render_template (BestOfN.initial_prompt_template ui) combo)
    /\ BestOfN.eval_rendered_prompt sd
       = BestOfN.process_special_variables (BestOfN.eval_template ui) eval_variables
           (BestOfN.render_template (BestOfN.initial_prompt_template ui) combo)
           (map BestOfN.run_output (BestOfN.runs sd)).
Proof.
  unfold BestOfN.main. intros H.
  destruct (String.eqb (BestOfN.api_key ui) ""); [discriminate|].
  destruct (BestOfN.parse_variable_definitions (BestOfN.initial_var_definitions ui))
    as [initial_variables|] eqn:P; [|discriminate].
  destruct (BestOfN.expand_variables fs initial_variables) as [[|combo others]|] eqn:E;
    try discriminate.
  destruct (BestOfN.parse_variable_definitions (BestOfN.eval_var_definitions ui))
    as [eval_variables|] eqn:P'; [|discriminate].
  inversion H; subst; clear H. cbn [BestOfN.runs BestOfN.eval_rendered_prompt].
  exists initial_variables, combo, others, eval_variables.
  repeat split; auto.
  - rewrite length_map. apply batch_call_llm_length.
  - intros r Hr. apply in_map_iff in Hr. destruct Hr as [o [<- _]]. reflexivity.
  - rewrite map_map. cbn [BestOfN.run_output]. now rewrite map_id.
Qed.

End MainTheorems.

Section MainWitnesses.
Existing Instance sample_host.

(** Witness of [main_processes_first_combinations]. *)
Lemma main_processes_first_combinations_witness :
  exists variables combinations,
    App3.parse_variable_definitions (host := sample_host) "doc=$$dir(./d)"
    = Some variables
    /\ App3.expand_variables two_file_fs variables = Some combinations
    /\ map App3.input_variables
         [ {| App3.input_variables :=
                [("doc", PStr "hello"); ("doc_path", PStr "./d/a.txt")];
              App3.input_prompt := "Sum up hello.";
              App3.input_output := "answer 0" |} ]
       = firstn 1 combinations
    /\ 1 = Nat.min 1 (length combinations)
    /\ forall i d,
         nth_error
           [ {| App3.input_variables :=
                  [("doc", PStr "hello"); ("doc_path", PStr "./d/a.txt")];
                App3.input_prompt := "Sum up hello.";
                App3.input_output := "answer 0" |} ] i = Some d ->
         App3.input_prompt d
         = App3.render_template "Sum up {{doc}}." (App3.input_variables d)
         /\ App3.input_output d = Core.call_llm always_answers i.
Proof.
  exact (main_processes_first_combinations (host := sample_host)
           two_file_fs always_answers sample_names sample_store
           "04Nov2026_10-00-00" "04Nov2026 - 10:00:00" sample_settings
           _ _ eq_refl).
Defined.

(** Witness of [main_runs_first_combination_only]. *)
Lemma main_runs_first_combination_only_witness :
  exists sd logged,
    BestOfN.main (host := sample_host) two_file_fs always_answers sample_names
      sample_store "04Nov2026_10-00-00" "04Nov2026 - 10:00:00" sample_evaluation
    = Core.Completed sd logged
    /\ length (BestOfN.runs sd) = 2
    /\ forall r, In r (BestOfN.runs sd) -> BestOfN.run_prompt r = "Sum up hello.".
Proof.
  eexists. eexists. split; [reflexivity|].
  destruct (main_runs_first_combination_only (host := sample_host)
              two_file_fs always_answers sample_names sample_store
              "04Nov2026_10-00-00" "04Nov2026 - 10:00:00" sample_evaluation
              _ _ eq_refl)
    as (iv & combo & others & ev & P & E & P' & L & R & _).
  split; [exact L|]. intros r Hr. rewrite (R r Hr).
  vm_compute in P. injection P as <-. vm_compute in E. injection E as <- _.
  reflexivity.
Defined.

End MainWitnesses.
